(** * BoardJS: the room/board synchronisation subsystem, embedded in Rocq

    The development follows the three source files of the repository:

    - [server.js]: the Socket.IO server.  Every listener registered inside
      [io.on("connection")] is a function from the server state (the
      persisted board documents and the live sockets) to a new state and
      the list of messages it sends.
    - the whiteboard client, in its version with selection, zoom limits
      and undo/redo: [onPointerUp], [pushHistory] and [redo] over the
      client state, and the camera functions [screenToWorld],
      [worldToScreen] and [onWheel].  ([public/board.js] is the earlier
      client without these features.)

    Conventions.
    - A JavaScript object used as a dictionary ([board.strokes], the
      client's [this.strokes]) is a [gmap string _] of its own properties;
      where the source reads a property through the prototype chain the
      inherited names of [Object.prototype] are taken into account.  The
      prototype is the one the object was created with: on the server
      every document is parsed anew, on the client a [new-stroke] event
      with the id [__proto__] would replace it, and the client state here
      is one where that has not happened.
    - [JSON.parse (JSON.stringify b)] is the identity on the data modelled
      here, so [readBoard]/[writeBoard] are a lookup and an insert in the
      store, keyed by the file name of the document, which is the room id
      when that has no path separator.
    - An identity ([userInfo.id]) is any JSON value; [===] holds between
      equal primitives and never for an object or an array.
    - [Date.now()], [Math.random()] and [uuidv4()] are inputs of a step
      ([Env]).
    - Stroke coordinates are rationals; the camera, whose zoom goes through
      [Math.exp], is over the reals.  Both idealise IEEE doubles: a
      statement that rests on an exact identity of arithmetic says so. *)

From Stdlib Require Import String Ascii ZArith QArith Qcanon Qabs Qminmax List Reals
  Lra Lia.
From Stdlib Require Lqa.
From stdpp Require Import base gmap strings list.

Set Default Proof Using "Type".

(* ===================================================================== *)
(** * Part I: definitions                                                *)
(* ===================================================================== *)

(** ** JavaScript values and strings *)

Module JS.

(** The values the [id] of a stroke, a username or a password takes:
    missing, [null], or a string. *)
Inductive jsval :=
| JUndefined
| JNull
| JStr (s : string).

#[global] Instance jsval_eq_dec : EqDecision jsval.
Proof. solve_decision. Defined.

(** The primitive values of JSON: the values above, a finite number,
    given by its value (so [-0] is [0]), and a boolean.  [JSON.stringify]
    and [JSON.parse] give each of them back as it was.  (A number literal
    beyond the range of doubles is read as [Infinity] and written back as
    [null]; it is not among these values.) *)
Inductive primval :=
| PVal (v : jsval)
| PNum (q : Qc)
| PBool (b : bool).

Coercion PVal : jsval >-> primval.

#[global] Instance primval_eq_dec : EqDecision primval.
Proof. solve_decision. Defined.

(** The values an identity takes ([userInfo.id], a member's [id], the
    [owner] of a board, [userIdToKick]): the server stores whatever JSON a
    client sends.  An object or an array is given by its JSON text. *)
Inductive idval :=
| Prim (v : primval)
| Obj (json : string).

Coercion Prim : primval >-> idval.

#[global] Instance idval_eq_dec : EqDecision idval.
Proof. solve_decision. Defined.

(** [a === b] as [server.js] uses it: one operand has just been parsed
    from a file, the other came with a request.  Primitives are compared by
    value.  An object is only [===] to itself, and every [JSON.parse] and
    every message makes a new one, so the comparison of an object or array
    with anything is [false], also with a copy of equal content. *)
Definition strict_eq (a b : idval) : bool :=
  match a, b with
  | Prim x, Prim y => bool_decide (x = y)
  | _, _ => false
  end.

(** Truthiness of a string: only the empty string is falsy. *)
Definition truthy_str (s : string) : bool :=
  match s with
  | EmptyString => false
  | String _ _ => true
  end.

(** Truthiness, as used by [||] and [if]. *)
Definition truthy (v : jsval) : bool :=
  match v with
  | JUndefined | JNull => false
  | JStr s => truthy_str s
  end.

(** ToPropertyKey: the string under which a value indexes an object. *)
Definition to_key (v : jsval) : string :=
  match v with
  | JUndefined => "undefined"
  | JNull => "null"
  | JStr s => s
  end.

(** [a || b] where [b] is a string. *)
Definition or_else (a : jsval) (b : string) : string :=
  if truthy a then to_key a else b.

(** [String.prototype.substring(start, end)]: both indices are clamped to
    the length and swapped when out of order. *)
Definition substring (s : string) (start end_ : nat) : string :=
  let n := String.length s in
  let a := Nat.min start n in
  let b := Nat.min end_ n in
  String.substring (Nat.min a b) (Nat.max a b - Nat.min a b) s.

Definition upper_char (c : ascii) : ascii :=
  let n := nat_of_ascii c in
  if (97 <=? n)%nat && (n <=? 122)%nat then ascii_of_nat (n - 32) else c.

(** [String.prototype.toUpperCase] on ASCII text. *)
Fixpoint toUpperCase (s : string) : string :=
  match s with
  | EmptyString => EmptyString
  | String c s' => String (upper_char c) (toUpperCase s')
  end.

(** The property names every plain object inherits from
    [Object.prototype]; each of them holds a function or an object, hence
    a truthy value. *)
Definition Object_prototype_names : list string :=
  [ "constructor"; "__defineGetter__"; "__defineSetter__"; "hasOwnProperty";
    "__lookupGetter__"; "__lookupSetter__"; "isPrototypeOf";
    "propertyIsEnumerable"; "toString"; "valueOf"; "__proto__";
    "toLocaleString" ].

Definition inherited (k : string) : bool :=
  bool_decide (k ∈ Object_prototype_names).

Section Objects.
Context {V : Type}.

(** [if (o[k])] for an object whose own properties hold objects: the
    property is found on the object itself or on its prototype. *)
Definition get_truthy (o : gmap string V) (k : string) : bool :=
  bool_decide (is_Some (o !! k)) || inherited k.

(** [o[k] = v] with [v] an object: an own property is written, except
    for the key [__proto__], whose setter replaces the prototype and
    creates no own property. *)
Definition set (o : gmap string V) (k : string) (v : V) : gmap string V :=
  if bool_decide (k = "__proto__") then o else <[k := v]> o.

(** [delete o[k]] removes an own property, if there is one. *)
Definition del (o : gmap string V) (k : string) : gmap string V :=
  delete k o.
End Objects.

(** The value denoted by the digits of a base-36 fraction, as printed by
    [Number.prototype.toString(36)] after the radix point. *)
Definition digit36 (c : ascii) : option Z :=
  let n := Z.of_nat (nat_of_ascii c) in
  if (48 <=? n)%Z && (n <=? 57)%Z then Some (n - 48)%Z
  else if (97 <=? n)%Z && (n <=? 122)%Z then Some (n - 87)%Z
  else None.

Fixpoint fraction36 (s : string) : option Q :=
  match s with
  | EmptyString => Some 0%Q
  | String c s' =>
      match digit36 c, fraction36 s' with
      | Some d, Some r => Some ((inject_Z d + r) / 36)%Q
      | _, _ => None
      end
  end.

(** The number written [0.digits] in base 36. *)
Definition value36 (s : string) : option Q :=
  match s with
  | String "0" (String "." ds) => fraction36 ds
  | String "0" EmptyString => Some 0%Q
  | _ => None
  end.

End JS.

Import JS.

(** ** Data model shared by server and client *)

Record Point := { p_x : Q; p_y : Q }.

Record Stroke := {
  s_id : jsval;
  s_color : string;
  s_size : Q;
  s_points : list Point
}.

Definition set_s_id (v : jsval) (s : Stroke) : Stroke :=
  {| s_id := v; s_color := s_color s; s_size := s_size s;
     s_points := s_points s |}.

Record UserInfo := { u_id : idval; u_username : string }.

(** The messages a client sends, one constructor per event name passed to
    [socket.emit] in the client (and [disconnect], raised by the
    transport). *)
Inductive ClientMsg :=
| Authenticate (userData : UserInfo)
| CreateRoom
| JoinRoom (roomId : string)
| AddStroke (roomId : string) (strokeData : Stroke)
| DeleteStroke (roomId strokeId : string)
| UpdateStrokes (roomId : string) (strokeIds : list string) (dx dy : Q)
| ClearBoard (roomId : string)
| CursorMove (pos : Point)
| ViewportUpdate
| KickUser (roomId : string) (userIdToKick : idval)
| Disconnect.

Definition event_name (m : ClientMsg) : string :=
  match m with
  | Authenticate _ => "authenticate"
  | CreateRoom => "create-room"
  | JoinRoom _ => "join-room"
  | AddStroke _ _ => "add-stroke"
  | DeleteStroke _ _ => "delete-stroke"
  | UpdateStrokes _ _ _ _ => "update-strokes"
  | ClearBoard _ => "clear-board"
  | CursorMove _ => "cursor-move"
  | ViewportUpdate => "viewport-update"
  | KickUser _ _ => "kick-user"
  | Disconnect => "disconnect"
  end.

(** ** The server ([server.js]) *)

Module Server.

Inductive Status := online | offline.

#[global] Instance Status_eq_dec : EqDecision Status.
Proof. solve_decision. Defined.

Record Member := {
  m_id : idval;
  m_username : string;
  m_status : Status;
  m_socketId : string
}.

Definition set_m_status (st : Status) (m : Member) : Member :=
  {| m_id := m_id m; m_username := m_username m; m_status := st;
     m_socketId := m_socketId m |}.

Definition set_m_socketId (sid : string) (m : Member) : Member :=
  {| m_id := m_id m; m_username := m_username m; m_status := m_status m;
     m_socketId := sid |}.

(** The board document, as [create-room] lays it out; [bannedIPs] is
    present in every document, so the guards for a missing list in
    [join-room] and [kick-user] never fire. *)
Record Board := {
  roomId : string;
  owner : idval;
  createdAt : Z;
  lastModified : Z;
  expiryDate : Z;
  strokes : gmap string Stroke;
  members : list Member;
  bannedIPs : list string
}.

Definition set_lastModified (t : Z) (b : Board) : Board :=
  {| roomId := roomId b; owner := owner b; createdAt := createdAt b;
     lastModified := t; expiryDate := expiryDate b; strokes := strokes b;
     members := members b; bannedIPs := bannedIPs b |}.

Definition set_strokes (ss : gmap string Stroke) (b : Board) : Board :=
  {| roomId := roomId b; owner := owner b; createdAt := createdAt b;
     lastModified := lastModified b; expiryDate := expiryDate b;
     strokes := ss; members := members b; bannedIPs := bannedIPs b |}.

Definition set_members (ms : list Member) (b : Board) : Board :=
  {| roomId := roomId b; owner := owner b; createdAt := createdAt b;
     lastModified := lastModified b; expiryDate := expiryDate b;
     strokes := strokes b; members := ms; bannedIPs := bannedIPs b |}.

Definition set_bannedIPs (ips : list string) (b : Board) : Board :=
  {| roomId := roomId b; owner := owner b; createdAt := createdAt b;
     lastModified := lastModified b; expiryDate := expiryDate b;
     strokes := strokes b; members := members b; bannedIPs := ips |}.

(** What the server keeps about one live connection: the fields the
    listeners attach to [socket] ([userInfo], [currentRoom]), the address
    of the handshake and the Socket.IO rooms it has joined. *)
Record Socket := {
  userInfo : UserInfo;
  currentRoom : option string;
  address : string;
  rooms : gset string
}.

Definition set_userInfo (u : UserInfo) (k : Socket) : Socket :=
  {| userInfo := u; currentRoom := currentRoom k; address := address k;
     rooms := rooms k |}.

(** The server state: the board files under [data/boards], keyed by room
    id, and [io.sockets.sockets], keyed by socket id. *)
Record State := {
  store : gmap string Board;
  sockets : gmap string Socket
}.

Definition set_store (st : gmap string Board) (s : State) : State :=
  {| store := st; sockets := sockets s |}.

Definition set_sockets (sk : gmap string Socket) (s : State) : State :=
  {| store := store s; sockets := sk |}.

Definition initial : State := {| store := ∅; sockets := ∅ |}.

(** The inputs of one step that the handler does not control.
    [clock n] is the value of the [n]-th [Date.now()] site of the handler,
    [random36] is the string [Math.random().toString(36)], [uuid] the
    result of [uuidv4()]. *)
Record Env := {
  clock : nat → Z;
  random36 : string;
  uuid : string
}.

(** The events the server sends. *)
Inductive ServerEvent :=
| UpdateMembers (ms : list Member)
| NewStroke (strokeId : string) (strokeData : Stroke)
| StrokeDeleted (strokeId : string)
| BoardCleared
| StrokesUpdated (strokeIds : list string) (dx dy : Q)
| UpdateCursor (pos : Point) (user : UserInfo)
| Kicked (message : string).

Definition server_event_name (ev : ServerEvent) : string :=
  match ev with
  | UpdateMembers _ => "update-members"
  | NewStroke _ _ => "new-stroke"
  | StrokeDeleted _ => "stroke-deleted"
  | BoardCleared => "board-cleared"
  | StrokesUpdated _ _ _ => "strokes-updated"
  | UpdateCursor _ _ => "update-cursor"
  | Kicked _ => "kicked"
  end.

(** The argument of an acknowledgement callback. *)
Inductive Reply :=
| CreateReply (success : bool) (roomId : string)
| JoinFailed (message : string)
| JoinOk (boardData : Board).


(** One entry per call that sends something:
    [callback(r)], [io.to(room).emit(ev)], [socket.to(room).emit(ev)]
    (the room without the sender) and [targetSocket.emit(ev)]. *)
Inductive Emit :=
| Callback (sid : string) (r : Reply)
| IoToRoom (room : string) (ev : ServerEvent)
| SocketToRoom (sender : string) (room : option string) (ev : ServerEvent)
| ToSocket (sid : string) (ev : ServerEvent).

(** The server event carried by an emission, if it is one. *)
Definition emitted_event (e : Emit) : option ServerEvent :=
  match e with
  | Callback _ _ => None
  | IoToRoom _ ev | SocketToRoom _ _ ev | ToSocket _ ev => Some ev
  end.

(** *** Helper functions *)

(** The path separators ([/], and the backslash of a Windows host). *)
Definition separator (c : ascii) : bool :=
  let n := nat_of_ascii c in (n =? 47)%nat || (n =? 92)%nat.

Fixpoint has_separator (s : string) : bool :=
  match s with
  | EmptyString => false
  | String c s' => separator c || has_separator s'
  end.

(** [getBoardPath(roomId)] is [path.join(BOARDS_DIR, roomId + ".json")].
    A room id without a separator names the file [roomId.json] of the
    boards directory, and two such ids name two files (on a file system
    that tells upper from lower case).  Any other id
    ([./R], [x/../R], [../users]) is a relative path, which [path.join]
    resolves to the file of another room, to a sub-directory or to a file
    outside the boards directory. *)
Definition is_file_name (roomId : string) : bool := negb (has_separator roomId).

(** [readBoard] and [writeBoard], with the room id taken as the name of
    the file: the documents of the boards directory are keyed by their
    file names.  For an [is_file_name] id this is what [getBoardPath]
    gives; a statement about a request that finds no document, or about
    the documents a request leaves alone, assumes it of the room id. *)
Definition readBoard (roomId : string) (s : State) : option Board :=
  store s !! roomId.

(** [writeBoard]: stamps [lastModified] and replaces the document. *)
Definition writeBoard (now : Z) (roomId : string) (boardData : Board)
    (s : State) : State :=
  set_store (<[roomId := set_lastModified now boardData]> (store s)) s.

(** [generateRoomId], from the string [Math.random().toString(36)]. *)
Definition generateRoomId (random36 : string) : string :=
  toUpperCase (JS.substring random36 2 8).

Definition BOARD_EXPIRY_DAYS : Z := 14.

(** [arr.find(p)] followed by an assignment to the element found: the
    first element satisfying [p] is replaced by its image under [f]. *)
Fixpoint update_first {A} (p : A → bool) (f : A → A) (l : list A) : list A :=
  match l with
  | [] => []
  | x :: l' => if p x then f x :: l' else x :: update_first p f l'
  end.

(** *** The listeners *)

(** [socket.on('authenticate')] *)
Definition authenticate (sid : string) (k : Socket) (userData : UserInfo)
    (s : State) : State * list Emit :=
  (set_sockets (<[sid := set_userInfo userData k]> (sockets s)) s, []).

(** [socket.on("create-room")].  Clock sites: [createdAt], [lastModified],
    [expiryDate], then the one inside [writeBoard]. *)
Definition create_room (e : Env) (sid : string) (k : Socket) (s : State)
    : State * list Emit :=
  let roomId := generateRoomId (random36 e) in
  let newBoard :=
    {| roomId := roomId;
       owner := u_id (userInfo k);
       createdAt := clock e 0;
       lastModified := clock e 1;
       expiryDate := (clock e 2 + BOARD_EXPIRY_DAYS * 24 * 60 * 60 * 1000)%Z;
       strokes := ∅;
       members := [];
       bannedIPs := [] |} in
  (writeBoard (clock e 3) roomId newBoard s,
   [Callback sid (CreateReply true roomId)]).

Definition is_member (i : idval) (m : Member) : bool := strict_eq (m_id m) i.

Definition has_socket (sid : string) (m : Member) : bool :=
  bool_decide (m_socketId m = sid).

(** [existingMember.status = 'online'; existingMember.socketId = socket.id] *)
Definition rejoin (sid : string) (m : Member) : Member :=
  set_m_socketId sid (set_m_status online m).

(** The member upsert of [join-room]. *)
Definition upsert_member (sid : string) (u : UserInfo) (ms : list Member)
    : list Member :=
  match find (is_member (u_id u)) ms with
  | Some _ => update_first (is_member (u_id u)) (rejoin sid) ms
  | None =>
      ms ++ [ {| m_id := u_id u; m_username := u_username u;
                 m_status := online; m_socketId := sid |} ]
  end.

(** [socket.leave(socket.currentRoom)] when [currentRoom] is truthy, then
    [socket.join(roomId)] and [socket.currentRoom = roomId]. *)
Definition enter_room (roomId : string) (k : Socket) : Socket :=
  let left :=
    match currentRoom k with
    | Some r => if truthy_str r then rooms k ∖ {[ r ]} else rooms k
    | None => rooms k
    end in
  {| userInfo := userInfo k; currentRoom := Some roomId;
     address := address k; rooms := {[ roomId ]} ∪ left |}.

Definition banned_message : string := "You are banned from this room.".

(** [socket.on("join-room")] *)
Definition join_room (e : Env) (sid : string) (k : Socket) (roomId : string)
    (s : State) : State * list Emit :=
  match readBoard roomId s with
  | None => (s, [Callback sid (JoinFailed "Room not found.")])
  | Some board =>
      if bool_decide (address k ∈ bannedIPs board) then
        (s, [Callback sid (JoinFailed banned_message)])
      else
        let s1 := set_sockets (<[sid := enter_room roomId k]> (sockets s)) s in
        let board1 :=
          set_members (upsert_member sid (userInfo k) (members board)) board in
        let board2 := set_lastModified (clock e 0) board1 in
        (writeBoard (clock e 0) roomId board1 s1,
         [Callback sid (JoinOk board2);
          IoToRoom roomId (UpdateMembers (members board2))])
  end.

(** [{ id: strokeId, ...strokeData }]: the spread comes after [id], so an
    [id] property of [strokeData], whatever its value, replaces it. *)
Definition with_id (strokeId : string) (strokeData : Stroke) : Stroke :=
  match s_id strokeData with
  | JUndefined => set_s_id (JStr strokeId) strokeData
  | _ => strokeData
  end.

(** [socket.on("add-stroke")].  The stroke sent back is
    [board.strokes[strokeId]] read after the assignment, which is the
    object just assigned (for [__proto__] too, through its getter). *)
Definition add_stroke (e : Env) (roomId : string) (strokeData : Stroke)
    (s : State) : State * list Emit :=
  match readBoard roomId s with
  | None => (s, [])
  | Some board =>
      let strokeId := or_else (s_id strokeData) (uuid e) in
      let stored := with_id strokeId strokeData in
      let board1 := set_strokes (JS.set (strokes board) strokeId stored) board in
      (writeBoard (clock e 0) roomId board1 s,
       [IoToRoom roomId (NewStroke strokeId stored)])
  end.

(** [socket.on("delete-stroke")] *)
Definition delete_stroke (e : Env) (roomId strokeId : string) (s : State)
    : State * list Emit :=
  match readBoard roomId s with
  | None => (s, [])
  | Some board =>
      if get_truthy (strokes board) strokeId then
        let board1 := set_strokes (JS.del (strokes board) strokeId) board in
        (writeBoard (clock e 0) roomId board1 s,
         [IoToRoom roomId (StrokeDeleted strokeId)])
      else (s, [])
  end.

(** [socket.on("clear-board")] *)
Definition clear_board (e : Env) (k : Socket) (roomId : string) (s : State)
    : State * list Emit :=
  match readBoard roomId s with
  | Some board =>
      if strict_eq (owner board) (u_id (userInfo k)) then
        (writeBoard (clock e 0) roomId (set_strokes ∅ board) s,
         [IoToRoom roomId BoardCleared])
      else (s, [])
  | None => (s, [])
  end.

(** [socket.on('cursor-move')] *)
Definition cursor_move (sid : string) (k : Socket) (pos : Point) (s : State)
    : State * list Emit :=
  (s, [SocketToRoom sid (currentRoom k) (UpdateCursor pos (userInfo k))]).

(** [socket.on("disconnect")].  Socket.IO has removed the socket from
    [io.sockets.sockets] and from its rooms when the listener runs. *)
Definition disconnect (now : Z) (sid : string) (k : Socket) (s : State)
    : State * list Emit :=
  let s0 := set_sockets (delete sid (sockets s)) s in
  match currentRoom k with
  | Some room =>
      if truthy_str room then
        match readBoard room s0 with
        | Some board =>
            match find (has_socket sid) (members board) with
            | Some _ =>
                let ms :=
                  update_first (has_socket sid) (set_m_status offline)
                    (members board) in
                (writeBoard now room (set_members ms board) s0,
                 [IoToRoom room (UpdateMembers ms)])
            | None => (s0, [])
            end
        | None => (s0, [])
        end
      else (s0, [])
  | None => (s0, [])
  end.

Definition kicked_message : string :=
  "You have been kicked and banned from this room.".

(** [socket.on('kick-user')].  [targetSocket.disconnect()] runs the
    target's [disconnect] listener before the handler goes on; that
    listener works on its own copy of the document (clock site 0), which
    the [writeBoard] of this handler (clock site 1) then replaces. *)
Definition kick_user (e : Env) (k : Socket) (roomId : string)
    (userIdToKick : idval) (s : State) : State * list Emit :=
  match readBoard roomId s with
  | Some board =>
      if strict_eq (owner board) (u_id (userInfo k)) then
        match find (is_member userIdToKick) (members board) with
        | Some memberToKick =>
            let tid := m_socketId memberToKick in
            let '(board1, s1, out1) :=
              match sockets s !! tid with
              | Some targetSocket =>
                  let b :=
                    set_bannedIPs (bannedIPs board ++ [address targetSocket])
                      board in
                  let '(s', out) := disconnect (clock e 0) tid targetSocket s in
                  (b, s', ToSocket tid (Kicked kicked_message) :: out)
              | None => (board, s, [])
              end in
            let ms :=
              update_first (is_member userIdToKick) (set_m_status offline)
                (members board1) in
            (writeBoard (clock e 1) roomId (set_members ms board1) s1,
             out1 ++ [IoToRoom roomId (UpdateMembers ms)])
        | None => (s, [])
        end
      else (s, [])
  | None => (s, [])
  end.

(** The event names for which [io.on("connection")] registers a
    listener, in source order. *)
Definition listeners : list string :=
  [ "authenticate"; "create-room"; "join-room"; "add-stroke";
    "delete-stroke"; "clear-board"; "cursor-move"; "viewport-update";
    "kick-user"; "disconnect" ].

(** The listener registered under the name of a message, applied to its
    arguments; [None] when the source registers none. *)
Definition listener (e : Env) (sid : string) (k : Socket) (m : ClientMsg)
    : option (State → State * list Emit) :=
  match m with
  | Authenticate userData => Some (authenticate sid k userData)
  | CreateRoom => Some (create_room e sid k)
  | JoinRoom roomId => Some (join_room e sid k roomId)
  | AddStroke roomId strokeData => Some (add_stroke e roomId strokeData)
  | DeleteStroke roomId strokeId => Some (delete_stroke e roomId strokeId)
  | ClearBoard roomId => Some (clear_board e k roomId)
  | CursorMove pos => Some (cursor_move sid k pos)
  | ViewportUpdate => Some (λ s, (s, []))
  | KickUser roomId userIdToKick => Some (kick_user e k roomId userIdToKick)
  | Disconnect => Some (disconnect (clock e 0) sid k)
  | UpdateStrokes _ _ _ _ => None
  end.

(** Delivery of one message from the connection [sid]: Socket.IO looks the
    event name up among the registered listeners and drops the message
    when there is none. *)
Definition handle (e : Env) (sid : string) (m : ClientMsg) (s : State)
    : State * list Emit :=
  match sockets s !! sid with
  | None => (s, [])
  | Some k =>
      if bool_decide (event_name m ∈ listeners) then
        match listener e sid k m with
        | Some h => h s
        | None => (s, [])
        end
      else (s, [])
  end.

(** [io.on("connection")]: a new socket with the default identity. *)
Definition connect (sid addr : string) (s : State) : State :=
  set_sockets
    (<[sid := {| userInfo := {| u_id := JNull; u_username := "Anonymous" |};
                 currentRoom := None; address := addr; rooms := {[ sid ]} |}]>
       (sockets s)) s.

(** A run of the server: connections and messages, each with its
    environment. *)
Inductive Input :=
| Connect (sid addr : string)
| Message (e : Env) (sid : string) (m : ClientMsg).

Definition step (s : State) (i : Input) : State :=
  match i with
  | Connect sid addr => connect sid addr s
  | Message e sid m => fst (handle e sid m s)
  end.

Definition run (inputs : list Input) : State := fold_left step inputs initial.

(** The states the server operations reach from the empty store. *)
Definition reachable (s : State) : Prop := ∃ inputs, run inputs = s.

(** *** Notions used in the statements *)

(** [strokes]: every key equals the [id] of the stroke stored under it. *)
Definition keys_match_ids (b : Board) : Prop :=
  ∀ key st, strokes b !! key = Some st → s_id st = JStr key.

Definition member_ids (b : Board) : list idval := m_id <$> members b.




(** The document a successful [join-room] writes and returns. *)
Definition joined_board (e : Env) (sid : string) (k : Socket) (board : Board)
    : Board :=
  set_lastModified (clock e 0)
    (set_members (upsert_member sid (userInfo k) (members board)) board).


End Server.

(** ** The client: pointer release and history *)

Module Client.

(** A selection rectangle [{x, y, w, h}] in world coordinates. *)
Record Rect := { r_x : Q; r_y : Q; r_w : Q; r_h : Q }.

(** The entries [pushHistory] receives, by their [type] field. *)
Inductive HistoryOp :=
| HAdd (strokeId : jsval)
| HDelete (strokeId : string) (strokeData : Stroke)
| HMove (strokeIds : list string) (dx dy : Q)
| HClear (before : gmap string Stroke).

(** The fields of [WhiteboardApp] that [onPointerUp], [pushHistory] and
    [redo] read or write.  [currentStroke] is held by value; in the source
    it is the object also stored in [strokes] under its id. *)
Record State := {
  roomId : string;
  strokes : gmap string Stroke;
  isDrawing : bool;
  currentStroke : option Stroke;
  isPanning : bool;
  isErasing : bool;
  currentTool : string;
  selectionRect : option Rect;
  selectedStrokeIds : gset string;
  isSelecting : bool;
  isDraggingSelection : bool;
  accumulatedDrag : Point;
  undoStack : list HistoryOp;
  redoStack : list HistoryOp
}.

Definition set_strokes (v : gmap string Stroke) (a : State) : State :=
  {| roomId := roomId a; strokes := v; isDrawing := isDrawing a;
     currentStroke := currentStroke a; isPanning := isPanning a;
     isErasing := isErasing a; currentTool := currentTool a;
     selectionRect := selectionRect a;
     selectedStrokeIds := selectedStrokeIds a; isSelecting := isSelecting a;
     isDraggingSelection := isDraggingSelection a;
     accumulatedDrag := accumulatedDrag a; undoStack := undoStack a;
     redoStack := redoStack a |}.

(** [this.isPanning = false; this.isErasing = false] *)
Definition release_pointer (a : State) : State :=
  {| roomId := roomId a; strokes := strokes a; isDrawing := isDrawing a;
     currentStroke := currentStroke a; isPanning := false;
     isErasing := false; currentTool := currentTool a;
     selectionRect := selectionRect a;
     selectedStrokeIds := selectedStrokeIds a; isSelecting := isSelecting a;
     isDraggingSelection := isDraggingSelection a;
     accumulatedDrag := accumulatedDrag a; undoStack := undoStack a;
     redoStack := redoStack a |}.

Definition set_isDrawing (v : bool) (a : State) : State :=
  {| roomId := roomId a; strokes := strokes a; isDrawing := v;
     currentStroke := currentStroke a; isPanning := isPanning a;
     isErasing := isErasing a; currentTool := currentTool a;
     selectionRect := selectionRect a;
     selectedStrokeIds := selectedStrokeIds a; isSelecting := isSelecting a;
     isDraggingSelection := isDraggingSelection a;
     accumulatedDrag := accumulatedDrag a; undoStack := undoStack a;
     redoStack := redoStack a |}.

Definition set_currentStroke (v : option Stroke) (a : State) : State :=
  {| roomId := roomId a; strokes := strokes a; isDrawing := isDrawing a;
     currentStroke := v; isPanning := isPanning a;
     isErasing := isErasing a; currentTool := currentTool a;
     selectionRect := selectionRect a;
     selectedStrokeIds := selectedStrokeIds a; isSelecting := isSelecting a;
     isDraggingSelection := isDraggingSelection a;
     accumulatedDrag := accumulatedDrag a; undoStack := undoStack a;
     redoStack := redoStack a |}.

(** [this.selectedStrokeIds = ids; this.isSelecting = false] *)
Definition finish_selection (ids : gset string) (a : State) : State :=
  {| roomId := roomId a; strokes := strokes a; isDrawing := isDrawing a;
     currentStroke := currentStroke a; isPanning := isPanning a;
     isErasing := isErasing a; currentTool := currentTool a;
     selectionRect := selectionRect a;
     selectedStrokeIds := ids; isSelecting := false;
     isDraggingSelection := isDraggingSelection a;
     accumulatedDrag := accumulatedDrag a; undoStack := undoStack a;
     redoStack := redoStack a |}.

Definition set_isDraggingSelection (v : bool) (a : State) : State :=
  {| roomId := roomId a; strokes := strokes a; isDrawing := isDrawing a;
     currentStroke := currentStroke a; isPanning := isPanning a;
     isErasing := isErasing a; currentTool := currentTool a;
     selectionRect := selectionRect a;
     selectedStrokeIds := selectedStrokeIds a; isSelecting := isSelecting a;
     isDraggingSelection := v;
     accumulatedDrag := accumulatedDrag a; undoStack := undoStack a;
     redoStack := redoStack a |}.

Definition set_stacks (u r : list HistoryOp) (a : State) : State :=
  {| roomId := roomId a; strokes := strokes a; isDrawing := isDrawing a;
     currentStroke := currentStroke a; isPanning := isPanning a;
     isErasing := isErasing a; currentTool := currentTool a;
     selectionRect := selectionRect a;
     selectedStrokeIds := selectedStrokeIds a; isSelecting := isSelecting a;
     isDraggingSelection := isDraggingSelection a;
     accumulatedDrag := accumulatedDrag a; undoStack := u;
     redoStack := r |}.

(** [pushHistory(op)] *)
Definition pushHistory (op : HistoryOp) (a : State) : State :=
  set_stacks (undoStack a ++ [op]) [] a.

(** [arr.pop()]: the last element and the shortened array, or nothing
    for an empty array. *)
Definition pop {A} (l : list A) : option (A * list A) :=
  match rev l with
  | [] => None
  | x :: r => Some (x, rev r)
  end.

Definition Qltb (a b : Q) : bool := negb (Qle_bool b a).

Definition bbox_step (acc : Q * Q * Q * Q) (p : Point) : Q * Q * Q * Q :=
  let '(minX, minY, maxX, maxY) := acc in
  (if Qltb (p_x p) minX then p_x p else minX,
   if Qltb (p_y p) minY then p_y p else minY,
   if Qltb maxX (p_x p) then p_x p else maxX,
   if Qltb maxY (p_y p) then p_y p else maxY).

(** [strokeBoundingBox].  The loop starts from
    [(Infinity, Infinity, -Infinity, -Infinity)], so its first iteration
    leaves the coordinates of the first point in all four variables. *)
Definition strokeBoundingBox (s : Stroke) : Rect :=
  match s_points s with
  | [] => {| r_x := 0; r_y := 0; r_w := 0; r_h := 0 |}
  | p :: ps =>
      let '(minX, minY, maxX, maxY) :=
        fold_left bbox_step ps (p_x p, p_y p, p_x p, p_y p) in
      {| r_x := minX; r_y := minY; r_w := maxX - minX; r_h := maxY - minY |}
  end.

(** [rectsIntersect(a, b)] *)
Definition rectsIntersect (a b : Rect) : bool :=
  Qltb (r_x a) (r_x b + r_w b) && Qltb (r_x b) (r_x a + r_w a) &&
  Qltb (r_y a) (r_y b + r_h b) && Qltb (r_y b) (r_y a + r_h a).

(** The ids of the strokes whose bounding box meets the marquee: the
    [for (const id in this.strokes)] loop of [onPointerUp], over the own
    properties of the map ([Object.prototype] has no enumerable property;
    a prototype put in its place by a [new-stroke] event with the id
    [__proto__] would add its own to the loop).  The enumeration order of
    the resulting [Set] is not modelled. *)
Definition strokes_in (rect : Rect) (ss : gmap string Stroke) : gset string :=
  dom (filter (λ kv, rectsIntersect (strokeBoundingBox kv.2) rect = true) ss).

(** The first half of [onPointerUp]: the stroke being drawn is completed.
    [None] is the [TypeError] of reading [this.currentStroke.id] on
    [null]. *)
Definition finish_drawing (a : State) : option (State * list ClientMsg) :=
  if isDrawing a then
    let a1 := set_isDrawing false a in
    match currentStroke a1 with
    | Some cs =>
        if (1 <? length (s_points cs))%nat then
          Some (set_currentStroke None (pushHistory (HAdd (s_id cs)) a1),
                [AddStroke (roomId a1) cs])
        else
          Some (set_currentStroke None
                  (set_strokes (JS.del (strokes a1) (to_key (s_id cs))) a1),
                [])
    | None => None
    end
  else Some (a, []).

(** The second half: the selection tool. *)
Definition finish_select (a : State) : State * list ClientMsg :=
  if bool_decide (currentTool a = "select") then
    match isSelecting a, selectionRect a with
    | true, Some rect =>
        (finish_selection (strokes_in rect (strokes a)) a, [])
    | _, _ =>
        if isDraggingSelection a then
          let a1 := set_isDraggingSelection false a in
          let dx := p_x (accumulatedDrag a1) in
          let dy := p_y (accumulatedDrag a1) in
          if negb (Qeq_bool dx 0) || negb (Qeq_bool dy 0) then
            let ids := elements (selectedStrokeIds a1) in
            (pushHistory (HMove ids dx dy) a1,
             [UpdateStrokes (roomId a1) ids dx dy])
          else (a1, [])
        else (a, [])
    end
  else (a, []).

(** [onPointerUp(e)]: the state after the handler and the messages it
    emits, in order.  [e.preventDefault()] and the cursor style have no
    part in the state modelled.  The earlier client, [public/board.js],
    has the drawing half only, without the history entry. *)
Definition onPointerUp (a : State) : option (State * list ClientMsg) :=
  match finish_drawing (release_pointer a) with
  | Some (a1, out1) =>
      let '(a2, out2) := finish_select a1 in
      Some (a2, out1 ++ out2)
  | None => None
  end.

(** [redo()] *)
Definition redo (a : State) : State * list ClientMsg :=
  match pop (redoStack a) with
  | None => (a, [])
  | Some (op, rest) =>
      let out :=
        match op with
        | HAdd _ => []
        | HDelete strokeId _ => [DeleteStroke (roomId a) strokeId]
        | HMove strokeIds dx dy => [UpdateStrokes (roomId a) strokeIds dx dy]
        | HClear _ => [ClearBoard (roomId a)]
        end in
      (set_stacks (undoStack a ++ [op]) rest a, out)
  end.

End Client.

(** ** The client: camera *)

Module Viewport.

Local Open Scope R_scope.

Record Camera := { cam_x : R; cam_y : R; zoom : R }.

Record Pos := { x : R; y : R }.

(** The camera together with the zoom limits of the constructor. *)
Record View := { camera : Camera; minZoom : R; maxZoom : R }.

(** The values the constructor assigns. *)
Definition initial : View :=
  {| camera := {| cam_x := 0; cam_y := 0; zoom := 1 |};
     minZoom := 1 / 10; maxZoom := 6 |}.

Definition screenToWorld (c : Camera) (screenPos : Pos) : Pos :=
  {| x := (x screenPos - cam_x c) / zoom c;
     y := (y screenPos - cam_y c) / zoom c |}.

Definition worldToScreen (c : Camera) (worldPos : Pos) : Pos :=
  {| x := x worldPos * zoom c + cam_x c;
     y := y worldPos * zoom c + cam_y c |}.

Definition zoomIntensity : R := 1 / 10.

(** [e.deltaY < 0 ? 1 : -1] *)
Definition wheel (deltaY : R) : R := if Rlt_dec deltaY 0 then 1 else -1.

(** [Math.sign] *)
Definition sign (v : R) : R :=
  if Rlt_dec v 0 then -1 else if Rlt_dec 0 v then 1 else 0.

(** [onWheel(e)], with [pos = getMousePos(e)] and [deltaY = e.deltaY]. *)
Definition onWheel (v : View) (pos : Pos) (deltaY : R) : View :=
  let c := camera v in
  let z := exp (wheel deltaY * zoomIntensity) in
  {| camera :=
       {| cam_x := (cam_x c - x pos) * z + x pos;
          cam_y := (cam_y c - y pos) * z + y pos;
          zoom := Rmax (minZoom v) (Rmin (maxZoom v) (zoom c * z)) |};
     minZoom := minZoom v;
     maxZoom := maxZoom v |}.

(** The wheel step as the specification words it. *)
Definition anchored_zoom_step (v : View) (pos : Pos) (deltaY : R) : Prop :=
  let v' := onWheel v pos deltaY in
  zoom (camera v') = zoom (camera v) * exp (sign deltaY * zoomIntensity) ∧
  worldToScreen (camera v') (screenToWorld (camera v) pos) = pos ∧
  minZoom v' <= zoom (camera v') <= maxZoom v'.

End Viewport.

(** ** Concrete runs used as examples *)

Module Scenario.
Import Server.

Definition env (rnd uid : string) (t : Z) : Env :=
  {| clock := λ n, (t + Z.of_nat n)%Z; random36 := rnd; uuid := uid |}.

Definition alice : UserInfo := {| u_id := JStr "u1"; u_username := "alice" |}.
Definition bob : UserInfo := {| u_id := JStr "u2"; u_username := "bob" |}.

Definition line (i : jsval) : Stroke :=
  {| s_id := i; s_color := "#000000"; s_size := 5;
     s_points := [ {| p_x := 0; p_y := 0 |}; {| p_x := 10; p_y := 10 |} ] |}.

(** Alice creates the room [4FZYO8]; she and Bob (from [1.2.3.4]) join. *)
Definition room : string := "4FZYO8".

Definition lobby : State :=
  run [ Connect "sa" "9.9.9.9";
        Message (env "" "" 10) "sa" (Authenticate alice);
        Message (env "0.4fzyo82mvyr" "" 20) "sa" CreateRoom;
        Message (env "" "" 30) "sa" (JoinRoom room);
        Connect "sb" "1.2.3.4";
        Message (env "" "" 40) "sb" (Authenticate bob);
        Message (env "" "" 50) "sb" (JoinRoom room) ].

(** The same room with the strokes [s1] and [s2] on the board. *)
Definition drawing : State :=
  fold_left step
    [ Message (env "" "" 60) "sa" (AddStroke room (line (JStr "s1")));
      Message (env "" "" 70) "sb" (AddStroke room (line (JStr "s2"))) ]
    lobby.

(** Bob opens a second connection [sb2], from another address, under the
    same identity. *)
Definition second_tab : State :=
  fold_left step
    [ Connect "sb2" "5.6.7.8";
      Message (env "" "" 60) "sb2" (Authenticate bob) ]
    lobby.

(** A client of the room right after [onPointerDown] with the pen: the
    stroke [cs] being drawn is stored under its temporary id. *)
Definition pen_down (cs : Stroke) : Client.State :=
  {| Client.roomId := room;
     Client.strokes := {[ to_key (s_id cs) := cs ]};
     Client.isDrawing := true;
     Client.currentStroke := Some cs;
     Client.isPanning := false;
     Client.isErasing := false;
     Client.currentTool := "pen";
     Client.selectionRect := None;
     Client.selectedStrokeIds := ∅;
     Client.isSelecting := false;
     Client.isDraggingSelection := false;
     Client.accumulatedDrag := {| p_x := 0; p_y := 0 |};
     Client.undoStack := [];
     Client.redoStack := [] |}.

(** A click without movement: one point. *)
Definition dot : Stroke :=
  {| s_id := JStr "temp-1700000000000"; s_color := "#000000"; s_size := 5;
     s_points := [ {| p_x := 3; p_y := 4 |} ] |}.

(** A client that drew the stroke [temp-1] and then undid it: the entry
    sits on the redo stack. *)
Definition after_undo : Client.State :=
  {| Client.roomId := room;
     Client.strokes := ∅;
     Client.isDrawing := false;
     Client.currentStroke := None;
     Client.isPanning := false;
     Client.isErasing := false;
     Client.currentTool := "pen";
     Client.selectionRect := None;
     Client.selectedStrokeIds := ∅;
     Client.isSelecting := false;
     Client.isDraggingSelection := false;
     Client.accumulatedDrag := {| p_x := 0; p_y := 0 |};
     Client.undoStack := [];
     Client.redoStack := [Client.HAdd (JStr "temp-1")] |}.

(** A view zoomed in to the limit, panned to [(100, 50)]. *)
Definition zoomed_in : Viewport.View :=
  {| Viewport.camera :=
       {| Viewport.cam_x := 100; Viewport.cam_y := 50; Viewport.zoom := 6 |};
     Viewport.minZoom := 1 / 10;
     Viewport.maxZoom := 6 |}.

End Scenario.

(** ** The server: user accounts ([/api/register], [/api/login]) *)

Module Accounts.

(** An entry of [users.json]. *)
Record User := {
  usr_id : string;
  usr_username : jsval;
  usr_password : jsval
}.

(** [req.body], destructured into [username] and [password]: each field
    is a string, [null] or absent.  (A number or an object in their place
    is outside this model; two parsed objects are never [===].) *)
Record Credentials := { username : jsval; password : jsval }.

(** The JSON bodies the two routes answer with. *)
Inductive Body :=
| Message (message : string)
| Account (id : string) (username : jsval).

(** [res.status(status).json(body)] *)
Record Response := { status : nat; body : Body }.

Definition has_username (n : jsval) (u : User) : bool :=
  strict_eq (usr_username u) n.

(** [app.post('/api/register')]: the new content of [users.json] and the
    response; [uuid] is the result of [uuidv4()]. *)
Definition register (uuid : string) (c : Credentials) (users : list User)
    : list User * Response :=
  if negb (truthy (username c)) || negb (truthy (password c)) then
    (users,
     {| status := 400;
        body := Message "Username and password are required." |})
  else
    match find (has_username (username c)) users with
    | Some _ =>
        (users, {| status := 409; body := Message "Username already exists." |})
    | None =>
        let newUser :=
          {| usr_id := uuid; usr_username := username c;
             usr_password := password c |} in
        (users ++ [newUser],
         {| status := 201;
            body := Account (usr_id newUser) (usr_username newUser) |})
    end.

(** [app.post('/api/login')] *)
Definition login (c : Credentials) (users : list User) : Response :=
  match find (has_username (username c)) users with
  | Some user =>
      if strict_eq (usr_password user) (password c) then
        {| status := 200; body := Account (usr_id user) (usr_username user) |}
      else {| status := 401; body := Message "Invalid credentials." |}
  | None => {| status := 401; body := Message "Invalid credentials." |}
  end.

(** The content of [users.json] after a series of registration requests,
    starting from the empty list the server creates. *)
Definition registered (requests : list (string * Credentials)) : list User :=
  fold_left (λ users r, (register r.1 r.2 users).1) requests [].

Definition usernames (users : list User) : list jsval :=
  usr_username <$> users.

End Accounts.

(** ** The server: expiry sweep and derived notions *)

Module Sweep.
Import Server.

(** [now > board.expiryDate] *)
Definition expired (now : Z) (b : Board) : bool := (expiryDate b <? now)%Z.

(** One tick of the [setInterval] callback: every board file is read, and
    for an expired one the file of [board.roomId] is unlinked.  [fs.unlink]
    is asynchronous: a file may go at any moment between its request and
    the end of the tick.  Here every unlink takes effect after the last
    read. *)
Definition cleanup (now : Z) (s : State) : State :=
  set_store
    (foldr (λ kb st, if expired now kb.2 then delete (roomId kb.2) st else st)
       (store s) (map_to_list (store s)))
    s.

(** The body of [files.forEach] for one directory entry, on the files
    that are left. *)
Definition sweep_file (now : Z) (st : gmap string Board) (file : string)
    : gmap string Board :=
  match st !! file with
  | Some board => if expired now board then delete (roomId board) st else st
  | None => st
  end.

(** The other extreme: every unlink takes effect at once, before the next
    entry of the listing [files] is read. *)
Definition cleanup_eager (now : Z) (files : list string) (s : State) : State :=
  set_store (fold_left (sweep_file now) files (store s)) s.

End Sweep.

Module ServerNotions.
Import Server.

(** Every document is stored under its own [roomId]. *)
Definition stored_under_own_id (s : State) : Prop :=
  ∀ r b, store s !! r = Some b → roomId b = r.

(** [b'] is a later version of the board [b]: the identifying fields and
    the dates set at creation are the same, the ban list and the list of
    member ids have only grown at the end. *)
Definition board_extends (b b' : Board) : Prop :=
  roomId b' = roomId b ∧ owner b' = owner b ∧
  createdAt b' = createdAt b ∧ expiryDate b' = expiryDate b ∧
  bannedIPs b `prefix_of` bannedIPs b' ∧
  member_ids b `prefix_of` member_ids b'.

(** The room a stroke or moderation request addresses. *)
Definition target_room (m : ClientMsg) : option string :=
  match m with
  | AddStroke roomId _ | DeleteStroke roomId _ | ClearBoard roomId
  | KickUser roomId _ => Some roomId
  | _ => None
  end.

(** The room id a request carries. *)
Definition requested_room (m : ClientMsg) : option string :=
  match m with
  | JoinRoom roomId => Some roomId
  | _ => target_room m
  end.

(** The events sent with [io.to(room).emit], in order. *)
Definition room_events (room : string) (out : list Emit) : list ServerEvent :=
  omap (λ e, match e with
             | IoToRoom r ev => if bool_decide (r = room) then Some ev else None
             | _ => None
             end) out.

End ServerNotions.

(** ** The client: applying the server's events *)

Module Replica.
Import Server.

(** [p.x += dx; p.y += dy] *)
Definition shift (dx dy : Q) (p : Point) : Point :=
  {| p_x := p_x p + dx; p_y := p_y p + dy |}.

(** The inner loop over [s.points]. *)
Definition translate (dx dy : Q) (s : Stroke) : Stroke :=
  {| s_id := s_id s; s_color := s_color s; s_size := s_size s;
     s_points := map (shift dx dy) (s_points s) |}.

(** The loop [for (const id of strokeIds)] of the [strokes-updated]
    listener: an id without a stroke of its own is skipped (an inherited
    property has no [points] array), and an id listed twice is moved
    twice. *)
Definition translate_ids (ids : list string) (dx dy : Q)
    (ss : gmap string Stroke) : gmap string Stroke :=
  fold_left
    (λ ss id,
       match ss !! id with
       | Some s => <[id := translate dx dy s]> ss
       | None => ss
       end)
    ids ss.

(** What the listeners of [setupSocketListeners] do to [this.strokes]:
    [new-stroke], [stroke-deleted], [board-cleared] and [strokes-updated]
    change it, the other events do not.  (During a selection drag the
    last one also shifts the selection rectangle, which is not part of
    this map.) *)
Definition apply_event (ev : ServerEvent) (ss : gmap string Stroke)
    : gmap string Stroke :=
  match ev with
  | NewStroke strokeId strokeData => JS.set ss strokeId strokeData
  | StrokeDeleted strokeId => JS.del ss strokeId
  | BoardCleared => ∅
  | StrokesUpdated strokeIds dx dy => translate_ids strokeIds dx dy ss
  | UpdateMembers _ | UpdateCursor _ _ | Kicked _ => ss
  end.

(** The events of a list, applied in the order of arrival. *)
Definition apply_events (evs : list ServerEvent) (ss : gmap string Stroke)
    : gmap string Stroke :=
  fold_left (λ ss ev, apply_event ev ss) evs ss.

(** Events that set or remove, as opposed to the relative move. *)
Definition absolute (ev : ServerEvent) : bool :=
  match ev with
  | StrokesUpdated _ _ _ => false
  | _ => true
  end.

(** Lists of [update-members] events. *)
Definition membership_only (evs : list ServerEvent) : Prop :=
  Forall (λ ev, ∃ ms, ev = UpdateMembers ms) evs.

End Replica.

(** ** The client: undo and the clear button *)

Module History.
Import Client.

(** [undo()].  For a [clear] entry the snapshot is re-posted stroke by
    stroke; the order of that loop over the snapshot is not modelled.  The
    id of an [add] entry is sent as the property key the server makes of
    it. *)
Definition undo (a : State) : State * list ClientMsg :=
  match pop (undoStack a) with
  | None => (a, [])
  | Some (op, rest) =>
      let a1 := set_stacks rest (redoStack a ++ [op]) a in
      match op with
      | HAdd strokeId =>
          (a1,
           if get_truthy (strokes a) (to_key strokeId)
           then [DeleteStroke (roomId a) (to_key strokeId)] else [])
      | HDelete _ strokeData => (a1, [AddStroke (roomId a) strokeData])
      | HMove strokeIds dx dy =>
          (a1, [UpdateStrokes (roomId a) strokeIds (- dx) (- dy)])
      | HClear before =>
          (set_strokes before a1,
           (λ kv, AddStroke (roomId a) kv.2) <$> map_to_list before)
      end
  end.

(** The click listener of the clear button; [confirmed] is the answer to
    the [confirm] dialog. *)
Definition clearBoard_click (confirmed : bool) (a : State)
    : State * list ClientMsg :=
  if confirmed then
    (pushHistory (HClear (strokes a)) a, [ClearBoard (roomId a)])
  else (a, []).

(** The [board-cleared] listener on the client state. *)
Definition board_cleared (a : State) : State := set_strokes ∅ a.

End History.

(** ** The client: selection geometry *)

Module Selection.
Import Client.

(** [pointInRect(p, r)], in exact arithmetic.  (In binary64 the sum
    [r.x + r.w] is rounded.) *)
Definition pointInRect (p : Point) (r : Rect) : bool :=
  Qle_bool (r_x r) (p_x p) && Qle_bool (p_x p) (r_x r + r_w r) &&
  Qle_bool (r_y r) (p_y p) && Qle_bool (p_y p) (r_y r + r_h r).

(** [rectFromPoints(a, b)] *)
Definition rectFromPoints (a b : Point) : Rect :=
  {| r_x := Qmin (p_x a) (p_x b);
     r_y := Qmin (p_y a) (p_y b);
     r_w := Qabs (p_x a - p_x b);
     r_h := Qabs (p_y a - p_y b) |}.

End Selection.

(** ** The client: gestures on the camera *)

Module Gestures.
Import Viewport.
Local Open Scope R_scope.

(** [pinchState] *)
Record PinchState := {
  active : bool;
  initialDistance : R;
  initialZoom : R;
  initialCenterWorld : Pos
}.

(** The part of [getTouchInfo] the handlers use; [p1] and [p2] are the
    two contact points relative to the canvas. *)
Record TouchInfo := { center : Pos; distance : R }.

Definition getTouchInfo (p1 p2 : Pos) : TouchInfo :=
  {| center := {| x := (x p1 + x p2) / 2; y := (y p1 + y p2) / 2 |};
     distance := sqrt ((x p2 - x p1) * (x p2 - x p1) +
                       (y p2 - y p1) * (y p2 - y p1)) |}.

(** [d || 1] *)
Definition or_one (d : R) : R := if Req_dec_T d 0 then 1 else d.

(** The two-finger branch of [onPointerMove]. *)
Definition pinch_move (v : View) (ps : PinchState) (p1 p2 : Pos)
    : View * PinchState :=
  let t := getTouchInfo p1 p2 in
  let ps1 :=
    if active ps then ps
    else {| active := true;
            initialDistance := distance t;
            initialZoom := zoom (camera v);
            initialCenterWorld := screenToWorld (camera v) (center t) |} in
  let scale := distance t / or_one (initialDistance ps1) in
  let newZoom :=
    Rmax (minZoom v) (Rmin (maxZoom v) (initialZoom ps1 * scale)) in
  ({| camera :=
        {| cam_x := x (center t) - x (initialCenterWorld ps1) * newZoom;
           cam_y := y (center t) - y (initialCenterWorld ps1) * newZoom;
           zoom := newZoom |};
      minZoom := minZoom v;
      maxZoom := maxZoom v |},
   ps1).

(** [onWheel] of the earlier client, [public/board.js]: the same step
    without zoom limits. *)
Definition onWheel_unclamped (c : Camera) (pos : Pos) (deltaY : R) : Camera :=
  let z := exp (wheel deltaY * zoomIntensity) in
  {| cam_x := (cam_x c - x pos) * z + x pos;
     cam_y := (cam_y c - y pos) * z + y pos;
     zoom := zoom c * z |}.

(** A series of wheel events at one pointer position. *)
Definition wheel_series (c : Camera) (pos : Pos) (deltas : list R) : Camera :=
  fold_left (λ c deltaY, onWheel_unclamped c pos deltaY) deltas c.

End Gestures.

(** ** More concrete runs *)

Module Samples.
Import Server.

(** The lobby after Bob's connection has closed. *)
Definition bob_left : State :=
  fold_left step [ Message (Scenario.env "" "" 60) "sb" Disconnect ]
    Scenario.lobby.



(** A client whose id is the array [[7]] opens two connections from
    [7.7.7.7] and authenticates on both. *)
Definition carol_array : UserInfo := {| u_id := Obj "[7]"; u_username := "carol" |}.

Definition two_tabs_array_id : State :=
  fold_left step
    [ Connect "sc" "7.7.7.7";
      Message (Scenario.env "" "" 60) "sc" (Authenticate carol_array);
      Connect "sd" "7.7.7.7";
      Message (Scenario.env "" "" 61) "sd" (Authenticate carol_array) ]
    Scenario.lobby.

(** The board of the room in [Scenario.lobby] and in [Scenario.drawing]. *)
Definition lobby_board : Board :=
  {| roomId := Scenario.room; owner := JStr "u1";
     createdAt := 20; lastModified := 50;
     expiryDate := 22 + 14 * 24 * 60 * 60 * 1000;
     strokes := ∅;
     members :=
       [ {| m_id := JStr "u1"; m_username := "alice";
            m_status := online; m_socketId := "sa" |};
         {| m_id := JStr "u2"; m_username := "bob";
            m_status := online; m_socketId := "sb" |} ];
     bannedIPs := [] |}.

Definition drawing_board : Board :=
  set_lastModified 70
    (set_strokes
       {[ "s1" := Scenario.line (JStr "s1");
          "s2" := Scenario.line (JStr "s2") ]} lobby_board).

(** A client holding the two strokes, with a move of both on its undo
    stack. *)
Definition after_move : Client.State :=
  {| Client.roomId := Scenario.room;
     Client.strokes :=
       {[ "s1" := Scenario.line (JStr "s1");
          "s2" := Scenario.line (JStr "s2") ]};
     Client.isDrawing := false;
     Client.currentStroke := None;
     Client.isPanning := false;
     Client.isErasing := false;
     Client.currentTool := "select";
     Client.selectionRect := None;
     Client.selectedStrokeIds := ∅;
     Client.isSelecting := false;
     Client.isDraggingSelection := false;
     Client.accumulatedDrag := {| p_x := 0; p_y := 0 |};
     Client.undoStack := [Client.HMove ["s1"; "s2"] 5 (-3)];
     Client.redoStack := [] |}.

(** A stroke far from the others. *)
Definition far_line : Stroke :=
  {| s_id := JStr "s3"; s_color := "#ff0000"; s_size := 2;
     s_points := [ {| p_x := 100; p_y := 100 |}; {| p_x := 110; p_y := 120 |} ] |}.


(** The same client at the end of a drag of the selected stroke [s1] by
    [(5, -3)], before the pointer is released. *)
Definition dragging : Client.State :=
  {| Client.roomId := Scenario.room;
     Client.strokes :=
       {[ "s1" := Replica.translate 5 (-3) (Scenario.line (JStr "s1"));
          "s3" := far_line ]};
     Client.isDrawing := false;
     Client.currentStroke := None;
     Client.isPanning := false;
     Client.isErasing := false;
     Client.currentTool := "select";
     Client.selectionRect :=
       Some {| Client.r_x := 5; Client.r_y := -3;
               Client.r_w := 10; Client.r_h := 10 |};
     Client.selectedStrokeIds := {[ "s1" ]};
     Client.isSelecting := false;
     Client.isDraggingSelection := true;
     Client.accumulatedDrag := {| p_x := 5; p_y := -3 |};
     Client.undoStack := [];
     Client.redoStack := [Client.HAdd (JStr "temp-1")] |}.

End Samples.

(* ===================================================================== *)
(** * Part II: properties                                                *)
(* ===================================================================== *)

(** ** Strings *)

Lemma toUpperCase_length s : String.length (toUpperCase s) = String.length s.
Proof. induction s as [|c s IH]; simpl; congruence. Qed.

Lemma String_substring_length s : ∀ n m,
  String.length (String.substring n m s) = Nat.min m (String.length s - n).
Proof.
  induction s as [|c s IH]; intros [|n] [|m]; simpl; try reflexivity.
  - rewrite IH. simpl. rewrite Nat.sub_0_r. reflexivity.
  - rewrite IH. reflexivity.
  - rewrite IH. reflexivity.
Qed.

Lemma substring_length s a b :
  (a ≤ b)%nat →
  String.length (JS.substring s a b) =
    (Nat.min b (String.length s) - Nat.min a (String.length s))%nat.
Proof.
  intros Hab. unfold JS.substring. rewrite String_substring_length. lia.
Qed.

(** ** The server *)

Module ServerFacts.
Import Server.

(** Dispatch: a message whose event has a listener runs that listener. *)
Lemma handle_listener e sid k m h s :
  sockets s !! sid = Some k →
  listener e sid k m = Some h →
  handle e sid m s = h s.
Proof.
  intros Hk Hl. unfold handle. rewrite Hk.
  destruct m; simpl in Hl; try discriminate; injection Hl as <-;
    (rewrite bool_decide_eq_true_2 by (unfold listeners; simpl; set_solver));
    reflexivity.
Qed.

Lemma readBoard_writeBoard now r b s :
  readBoard r (writeBoard now r b s) = Some (set_lastModified now b).
Proof. unfold readBoard, writeBoard. simpl. apply lookup_insert_eq. Qed.

Lemma readBoard_writeBoard_ne now r r' b s :
  r ≠ r' → readBoard r' (writeBoard now r b s) = readBoard r' s.
Proof.
  intros Hne. unfold readBoard, writeBoard. simpl.
  by apply lookup_insert_ne.
Qed.

Lemma strict_eq_true a b : strict_eq a b = true → a = b.
Proof.
  destruct a as [x|o], b as [y|o']; simpl; try discriminate.
  by intros ->%bool_decide_eq_true.
Qed.

Lemma strict_eq_false a b : a ≠ b → strict_eq a b = false.
Proof.
  intros Hne. destruct (strict_eq a b) eqn:H; [|done].
  by apply strict_eq_true in H.
Qed.

(** Between primitives [===] is equality. *)
Lemma strict_eq_prim (x y : primval) : strict_eq x y = true ↔ x = y.
Proof. simpl. apply bool_decide_eq_true. Qed.

Lemma strict_eq_refl (x : primval) : strict_eq x x = true.
Proof. by apply strict_eq_prim. Qed.

(** An object is never [===] to what the other side holds. *)
Lemma strict_eq_obj_r a json : strict_eq a (Obj json) = false.
Proof. by destruct a. Qed.

(** *** The room id *)

Lemma generateRoomId_length rnd :
  String.length (generateRoomId rnd) =
    (Nat.min 8 (String.length rnd) - Nat.min 2 (String.length rnd))%nat.
Proof.
  unfold generateRoomId. rewrite toUpperCase_length.
  apply substring_length. lia.
Qed.

Lemma generateRoomId_at_most_6 rnd : (String.length (generateRoomId rnd) ≤ 6)%nat.
Proof. rewrite generateRoomId_length. lia. Qed.

Lemma generateRoomId_6 rnd :
  (8 ≤ String.length rnd)%nat → String.length (generateRoomId rnd) = 6%nat.
Proof. intros H. rewrite generateRoomId_length. lia. Qed.

(** [create-room] replies with success and the generated id, and the board
    stored under that id is empty and owned by the caller. *)
Lemma create_room_reply e sid k s :
  sockets s !! sid = Some k →
  ∃ s', handle e sid CreateRoom s =
          (s', [Callback sid (CreateReply true (generateRoomId (random36 e)))])
    ∧ ∃ b, readBoard (generateRoomId (random36 e)) s' = Some b
        ∧ strokes b = ∅ ∧ members b = [] ∧ bannedIPs b = []
        ∧ owner b = u_id (userInfo k).
Proof.
  intros Hk. rewrite (handle_listener e sid k CreateRoom _ s Hk eq_refl).
  eexists. split; [reflexivity|].
  eexists. split; [apply readBoard_writeBoard|]. simpl. auto.
Qed.

(** *** Reachable states *)

Lemma reachable_step s i : reachable s → reachable (step s i).
Proof.
  intros [inputs <-]. exists (inputs ++ [i]).
  unfold run. by rewrite fold_left_app.
Qed.

Lemma reachable_steps s inputs : reachable s → reachable (fold_left step inputs s).
Proof.
  revert s. induction inputs as [|i inputs IH]; intros s Hs; simpl; [done|].
  by apply IH, reachable_step.
Qed.

Lemma reachable_lobby : reachable Scenario.lobby.
Proof. eexists. reflexivity. Qed.

Lemma reachable_drawing : reachable Scenario.drawing.
Proof. apply reachable_steps, reachable_lobby. Qed.

End ServerFacts.

Module StrokeProtocol.
Import Server ServerFacts.

(** *** update-strokes *)

(** The server registers no listener under the name the client emits
    moves with, so a move never reaches a handler. *)
Lemma update_strokes_unhandled e sid roomId strokeIds dx dy s :
  ("update-strokes" ∉ listeners) ∧
  handle e sid (UpdateStrokes roomId strokeIds dx dy) s = (s, []).
Proof.
  split.
  - intros H. apply (bool_decide_eq_true_2 _) in H. vm_compute in H.
    discriminate.
  - unfold handle. destruct (sockets s !! sid); [|reflexivity].
    by destruct (bool_decide _).
Qed.

Lemma disconnect_emits now sid k s em :
  em ∈ (disconnect now sid k s).2 →
  ∃ room ms, em = IoToRoom room (UpdateMembers ms).
Proof.
  unfold disconnect.
  destruct (currentRoom k) as [room|]; [|by intros ?%elem_of_nil].
  destruct (truthy_str room); [|by intros ?%elem_of_nil].
  destruct (readBoard room _) as [board|]; [|by intros ?%elem_of_nil].
  destruct (find _ _); [|by intros ?%elem_of_nil].
  intros ->%list_elem_of_singleton. eauto.
Qed.

(** Nor does any listener ever send [strokes-updated], the event the
    client waits for to apply a remote move. *)
Lemma strokes_updated_is_never_sent e sid m s em ev :
  em ∈ (handle e sid m s).2 →
  emitted_event em = Some ev →
  server_event_name ev ≠ "strokes-updated".
Proof.
  unfold handle.
  destruct (sockets s !! sid) as [k|]; [|by intros ?%elem_of_nil].
  destruct (bool_decide _); [|by intros ?%elem_of_nil].
  destruct m; cbn [listener snd]; try (by intros ?%elem_of_nil).
  - unfold create_room. by intros ->%list_elem_of_singleton.
  - unfold join_room. destruct (readBoard _ _); [|by intros ->%list_elem_of_singleton].
    destruct (bool_decide _); [by intros ->%list_elem_of_singleton|].
    cbn [snd]. intros [->|[->|[]%elem_of_nil]%elem_of_cons]%elem_of_cons;
      [done | by intros [= <-]].
  - unfold add_stroke. destruct (readBoard _ _); [|by intros ?%elem_of_nil].
    intros ->%list_elem_of_singleton. by intros [= <-].
  - unfold delete_stroke. destruct (readBoard _ _); [|by intros ?%elem_of_nil].
    destruct (get_truthy _ _); [|by intros ?%elem_of_nil].
    intros ->%list_elem_of_singleton. by intros [= <-].
  - unfold clear_board. destruct (readBoard _ _); [|by intros ?%elem_of_nil].
    destruct (strict_eq _ _); [|by intros ?%elem_of_nil].
    intros ->%list_elem_of_singleton. by intros [= <-].
  - unfold cursor_move. intros ->%list_elem_of_singleton. by intros [= <-].
  - unfold kick_user. destruct (readBoard _ _); [|by intros ?%elem_of_nil].
    destruct (strict_eq _ _); [|by intros ?%elem_of_nil].
    destruct (find _ _) as [target|]; [|by intros ?%elem_of_nil].
    destruct (sockets s !! m_socketId target) as [tsock|].
    + pose proof (disconnect_emits (clock e 0) (m_socketId target) tsock s) as Hd.
      destruct (disconnect _ _ _ _) as [s1 out1]. cbn [snd] in Hd |- *.
      intros [->|[Hin| ->%list_elem_of_singleton]%elem_of_app]%elem_of_cons.
      * by intros [= <-].
      * destruct (Hd _ Hin) as (room & ms & ->). by intros [= <-].
      * by intros [= <-].
    + cbn [snd]. rewrite app_nil_l.
      intros ->%list_elem_of_singleton. by intros [= <-].
  - intros Hin. destruct (disconnect_emits _ _ _ _ _ Hin) as (room & ms & ->).
    by intros [= <-].
Qed.

(** C1 (code defect).  The claim: an [update-strokes] request from a
    client joined to an existing room translates the named strokes in the
    persisted board, saves it and broadcasts [strokes-updated] to the
    others.  Here Alice, joined to the room holding [s1] and [s2], sends
    [{strokeIds: [s1, s2], dx: 5, dy: -3}]: the server state is unchanged,
    [s1] keeps its points [(0,0), (10,10)], and nothing is sent. *)
Theorem update_strokes_request_is_lost :
  let request := UpdateStrokes Scenario.room ["s1"; "s2"] 5 (-3) in
  let result := handle (Scenario.env "" "" 80) "sa" request Scenario.drawing in
  reachable Scenario.drawing ∧
  (∃ k, sockets Scenario.drawing !! "sa" = Some k
        ∧ currentRoom k = Some Scenario.room) ∧
  (∃ b, readBoard Scenario.room result.1 = Some b
        ∧ strokes b !! "s1" = Some (Scenario.line (JStr "s1"))) ∧
  result.1 = Scenario.drawing ∧
  result.2 = [].
Proof.
  intros request result.
  assert (Hr : result = (Scenario.drawing, []))
    by apply update_strokes_unhandled.
  rewrite Hr. cbn [fst snd].
  split; [apply reachable_drawing|].
  split; [|split; [|split; reflexivity]].
  - eexists. split; vm_compute; reflexivity.
  - eexists. split; vm_compute; reflexivity.
Qed.

(** *** create-room *)

(** [Math.random()] may also return 0, printed [0]: the id is empty. *)
Example room_id_of_zero : value36 "0" = Some 0%Q ∧ generateRoomId "0" = "".
Proof. split; reflexivity. Qed.

(** C2 (code defect).  The claim: [create-room] always replies with a
    6-character room id.  When [Math.random()] returns 0.5, written [0.i]
    in base 36, the reply carries the 1-character id [I]. *)
Theorem create_room_id_of_one_character :
  (∃ q, value36 "0.i" = Some q ∧ (q == 1 # 2)%Q) ∧
  ∃ s', handle (Scenario.env "0.i" "" 20) "sa" CreateRoom
          (connect "sa" "9.9.9.9" initial)
        = (s', [Callback "sa" (CreateReply true "I")])
      ∧ is_Some (readBoard "I" s')
      ∧ String.length "I" = 1%nat.
Proof.
  split.
  - eexists. split; [reflexivity|]. reflexivity.
  - eexists. split; [reflexivity|]. split; [|reflexivity].
    eexists. apply readBoard_writeBoard.
Qed.

(** *** clear-board *)

(** C3.  A [clear-board] request whose caller is not the owner of the
    board leaves the whole server state as it was (so the strokes are
    unchanged and nothing is written) and sends nothing. *)
Theorem clear_board_by_non_owner_is_ignored e sid k roomId board s :
  sockets s !! sid = Some k →
  readBoard roomId s = Some board →
  u_id (userInfo k) ≠ owner board →
  handle e sid (ClearBoard roomId) s = (s, []).
Proof.
  intros Hk Hb Hne.
  rewrite (handle_listener e sid k (ClearBoard roomId) _ s Hk eq_refl).
  unfold clear_board. rewrite Hb.
  assert (strict_eq (owner board) (u_id (userInfo k)) = false) as ->
    by (apply strict_eq_false; congruence).
  reflexivity.
Qed.

Lemma clear_board_by_non_owner_is_ignored_witness :
  handle (Scenario.env "" "" 80) "sb" (ClearBoard Scenario.room)
    Scenario.drawing = (Scenario.drawing, []).
Proof.
  eapply (clear_board_by_non_owner_is_ignored _ "sb" _ Scenario.room).
  - vm_compute. reflexivity.
  - vm_compute. reflexivity.
  - vm_compute. discriminate.
Defined.

(** The owner's request, for comparison, empties the board and is
    broadcast. *)
Lemma clear_board_by_owner e sid k roomId board s :
  sockets s !! sid = Some k →
  readBoard roomId s = Some board →
  strict_eq (owner board) (u_id (userInfo k)) = true →
  handle e sid (ClearBoard roomId) s =
    (writeBoard (clock e 0) roomId (set_strokes ∅ board) s,
     [IoToRoom roomId BoardCleared]).
Proof.
  intros Hk Hb Heq.
  rewrite (handle_listener e sid k (ClearBoard roomId) _ s Hk eq_refl).
  unfold clear_board. by rewrite Hb, Heq.
Qed.

(** *** delete-stroke *)

Lemma get_truthy_absent (o : gmap string Stroke) k :
  o !! k = None → inherited k = false → get_truthy o k = false.
Proof.
  intros Ho Hi. unfold get_truthy. rewrite Hi, orb_false_r.
  apply bool_decide_eq_false. rewrite Ho. by intros [? ?].
Qed.

(** For an id that is absent and is not a name inherited from
    [Object.prototype], the handler changes nothing and sends nothing. *)
Lemma delete_stroke_absent e sid k roomId strokeId board s :
  sockets s !! sid = Some k →
  readBoard roomId s = Some board →
  strokes board !! strokeId = None →
  inherited strokeId = false →
  handle e sid (DeleteStroke roomId strokeId) s = (s, []).
Proof.
  intros Hk Hb Ha Hi.
  rewrite (handle_listener e sid k (DeleteStroke roomId strokeId) _ s Hk eq_refl).
  unfold delete_stroke. rewrite Hb, (get_truthy_absent _ _ Ha Hi).
  reflexivity.
Qed.

(** A request for a room that does not exist is ignored. *)
Lemma delete_stroke_no_board e sid k roomId strokeId s :
  sockets s !! sid = Some k →
  readBoard roomId s = None →
  handle e sid (DeleteStroke roomId strokeId) s = (s, []).
Proof.
  intros Hk Hb.
  rewrite (handle_listener e sid k (DeleteStroke roomId strokeId) _ s Hk eq_refl).
  unfold delete_stroke. by rewrite Hb.
Qed.

(** A stroke that is present is removed, the board is written and the
    deletion is broadcast to the room. *)
Lemma delete_stroke_present e sid k roomId strokeId board st s :
  sockets s !! sid = Some k →
  readBoard roomId s = Some board →
  strokes board !! strokeId = Some st →
  handle e sid (DeleteStroke roomId strokeId) s =
    (writeBoard (clock e 0) roomId
       (set_strokes (delete strokeId (strokes board)) board) s,
     [IoToRoom roomId (StrokeDeleted strokeId)]).
Proof.
  intros Hk Hb Hp.
  rewrite (handle_listener e sid k (DeleteStroke roomId strokeId) _ s Hk eq_refl).
  unfold delete_stroke, get_truthy. rewrite Hb.
  rewrite bool_decide_eq_true_2 by (rewrite Hp; eauto).
  reflexivity.
Qed.

(** Idempotence: after one deletion a second one of the same id is a
    no-op, for every id that is not an inherited name. *)
Lemma delete_stroke_twice e1 e2 sid k roomId strokeId s :
  sockets s !! sid = Some k →
  inherited strokeId = false →
  let s1 := (handle e1 sid (DeleteStroke roomId strokeId) s).1 in
  handle e2 sid (DeleteStroke roomId strokeId) s1 = (s1, []).
Proof.
  intros Hk Hi s1. subst s1.
  destruct (readBoard roomId s) as [board|] eqn:Hb.
  - destruct (strokes board !! strokeId) as [st|] eqn:Hs.
    + rewrite (delete_stroke_present e1 _ _ _ _ _ _ _ Hk Hb Hs). cbn [fst].
      eapply delete_stroke_absent; [exact Hk | apply readBoard_writeBoard | | exact Hi].
      simpl. apply lookup_delete_eq.
    + rewrite (delete_stroke_absent e1 _ _ _ _ _ _ Hk Hb Hs Hi). cbn [fst].
      by apply (delete_stroke_absent e2 _ k _ _ board).
  - rewrite (delete_stroke_no_board e1 _ _ _ _ _ Hk Hb). cbn [fst].
    by apply (delete_stroke_no_board e2 _ k).
Qed.

(** C5 (code defect).  The claim: when the id is absent from [strokes],
    [delete-stroke] changes nothing, persists nothing and broadcasts
    nothing.  With the absent id [constructor] on the empty board of the
    lobby, the test [board.strokes[strokeId]] finds the inherited
    property: the board is written again (its [lastModified] moves from
    50 to 80) and [stroke-deleted] is broadcast to the room. *)
Theorem delete_stroke_inherited_name_is_broadcast :
  let request := DeleteStroke Scenario.room "constructor" in
  let result := handle (Scenario.env "" "" 80) "sb" request Scenario.lobby in
  reachable Scenario.lobby ∧
  (∃ b, readBoard Scenario.room Scenario.lobby = Some b
        ∧ strokes b !! "constructor" = None ∧ lastModified b = 50%Z) ∧
  (∃ b', readBoard Scenario.room result.1 = Some b'
        ∧ lastModified b' = 80%Z) ∧
  result.2 = [IoToRoom Scenario.room (StrokeDeleted "constructor")].
Proof.
  intros request result. split; [apply reachable_lobby|]. split; [|split].
  - eexists. split; [vm_compute; reflexivity|]. split; vm_compute; reflexivity.
  - eexists. split; vm_compute; reflexivity.
  - vm_compute. reflexivity.
Qed.

(** *** add-stroke *)

Lemma add_stroke_eq e sid k roomId strokeData board s :
  sockets s !! sid = Some k →
  readBoard roomId s = Some board →
  handle e sid (AddStroke roomId strokeData) s =
    let strokeId := or_else (s_id strokeData) (uuid e) in
    let stored := with_id strokeId strokeData in
    (writeBoard (clock e 0) roomId
       (set_strokes (JS.set (strokes board) strokeId stored) board) s,
     [IoToRoom roomId (NewStroke strokeId stored)]).
Proof.
  intros Hk Hb.
  rewrite (handle_listener e sid k (AddStroke roomId strokeData) _ s Hk eq_refl).
  unfold add_stroke. by rewrite Hb.
Qed.

(** When [strokeData] carries no [id], or a non-empty string, the stroke
    is stored under a key equal to its [id]. *)
Lemma add_stroke_keeps_keys_match_ids e sid k roomId strokeData board s :
  sockets s !! sid = Some k →
  readBoard roomId s = Some board →
  keys_match_ids board →
  s_id strokeData = JUndefined ∨
    (∃ i, s_id strokeData = JStr i ∧ truthy_str i = true) →
  ∃ board', readBoard roomId (handle e sid (AddStroke roomId strokeData) s).1
              = Some board' ∧ keys_match_ids board'.
Proof.
  intros Hk Hb Hinv Hid.
  rewrite (add_stroke_eq e _ _ _ _ _ _ Hk Hb). cbn [fst].
  eexists. split; [apply readBoard_writeBoard|].
  intros key st. simpl. unfold JS.set. case_bool_decide as Hproto.
  { apply Hinv. }
  rewrite lookup_insert. case_decide as Hkey.
  - intros [= <-]. subst key. unfold with_id, or_else.
    destruct Hid as [Hu | (i & Hi & Ht)].
    + rewrite Hu. reflexivity.
    + rewrite Hi. simpl. rewrite Ht. exact Hi.
  - apply Hinv.
Qed.

(** C6 (code defect).  The claim: on every reachable board each key of
    [strokes] equals the [id] of the stroke under it, also after an
    [add-stroke] whose [strokeData.id] is empty or [null].  From the
    lobby, adding a stroke with [id: ""] stores it under the fresh uuid
    with [id] still [""], and adding one with [id: null] stores it under
    the uuid with [id] still [null]. *)
Theorem add_stroke_with_falsy_id_breaks_key_invariant :
  let add i u :=
    (handle (Scenario.env "" u 60) "sa"
       (AddStroke Scenario.room (Scenario.line i)) Scenario.lobby).1 in
  (reachable (add (JStr "") "uuid-1") ∧
   ∃ b, readBoard Scenario.room (add (JStr "") "uuid-1") = Some b
        ∧ strokes b !! "uuid-1" = Some (Scenario.line (JStr ""))
        ∧ ¬ keys_match_ids b) ∧
  (reachable (add JNull "uuid-2") ∧
   ∃ b, readBoard Scenario.room (add JNull "uuid-2") = Some b
        ∧ strokes b !! "uuid-2" = Some (Scenario.line JNull)
        ∧ ¬ keys_match_ids b).
Proof.
  intros add. split; (split; [apply (reachable_step _ (Message _ _ _)), reachable_lobby|]).
  - eexists. split; [vm_compute; reflexivity|].
    split; [vm_compute; reflexivity|].
    intros Hinv. specialize (Hinv "uuid-1" (Scenario.line (JStr ""))).
    discriminate Hinv. vm_compute. reflexivity.
  - eexists. split; [vm_compute; reflexivity|].
    split; [vm_compute; reflexivity|].
    intros Hinv. specialize (Hinv "uuid-2" (Scenario.line JNull)).
    discriminate Hinv. vm_compute. reflexivity.
Qed.

End StrokeProtocol.

(** ** Membership and moderation *)

Module Membership.
Import Server ServerFacts.

(** *** Updating the first match *)

Section UpdateFirst.
Context {A : Type} (p : A → bool) (f : A → A).

Lemma update_first_length l : length (update_first p f l) = length l.
Proof.
  induction l as [|x l IH]; simpl; [done|].
  destruct (p x); simpl; congruence.
Qed.

Lemma update_first_find l x :
  find p l = Some x → p (f x) = true →
  find p (update_first p f l) = Some (f x).
Proof.
  induction l as [|y l IH]; simpl; [done|].
  destruct (p y) eqn:Hy.
  - intros [= ->] Hfx. simpl. by rewrite Hfx.
  - intros Hfind Hfx. simpl. rewrite Hy. auto.
Qed.

Lemma update_first_fmap {B} (g : A → B) l :
  (∀ x, g (f x) = g x) → g <$> update_first p f l = g <$> l.
Proof.
  intros Hg. induction l as [|x l IH]; csimpl; [done|].
  destruct (p x); csimpl; [by rewrite Hg | by rewrite IH].
Qed.

End UpdateFirst.

Lemma upsert_member_known sid u ms m :
  find (is_member (u_id u)) ms = Some m →
  upsert_member sid u ms = update_first (is_member (u_id u)) (rejoin sid) ms.
Proof. intros H. unfold upsert_member. by rewrite H. Qed.

(** After the upsert a record with a primitive id is found under it. *)
Lemma upsert_member_finds sid u ms (v : primval) :
  u_id u = Prim v →
  is_Some (find (is_member (u_id u)) (upsert_member sid u ms)).
Proof.
  intros Hv. unfold upsert_member.
  destruct (find (is_member (u_id u)) ms) as [m|] eqn:Hf.
  - exists (rejoin sid m). apply update_first_find; [done|].
    apply find_some in Hf as [_ Hm]. exact Hm.
  - induction ms as [|x ms IH]; simpl in *.
    + unfold is_member at 1. simpl. rewrite Hv, strict_eq_refl. eauto.
    + destruct (is_member (u_id u) x); [done | auto].
Qed.

(** With an object or an array as id no record is ever found, and the
    upsert appends. *)
Lemma upsert_member_object sid u ms json :
  u_id u = Obj json →
  upsert_member sid u ms =
    ms ++ [ {| m_id := u_id u; m_username := u_username u;
               m_status := online; m_socketId := sid |} ].
Proof.
  intros Ho. unfold upsert_member.
  destruct (find (is_member (u_id u)) ms) as [m|] eqn:Hf; [|done].
  apply find_some in Hf as [_ Hm]. unfold is_member in Hm.
  by rewrite Ho, strict_eq_obj_r in Hm.
Qed.


(** *** join-room *)

Lemma join_room_banned e sid k roomId board s :
  sockets s !! sid = Some k →
  readBoard roomId s = Some board →
  address k ∈ bannedIPs board →
  handle e sid (JoinRoom roomId) s =
    (s, [Callback sid (JoinFailed banned_message)]).
Proof.
  intros Hk Hb Hban.
  rewrite (handle_listener e sid k (JoinRoom roomId) _ s Hk eq_refl).
  unfold join_room. rewrite Hb. by rewrite bool_decide_eq_true_2.
Qed.

Lemma join_room_missing e sid k roomId s :
  sockets s !! sid = Some k →
  readBoard roomId s = None →
  handle e sid (JoinRoom roomId) s =
    (s, [Callback sid (JoinFailed "Room not found.")]).
Proof.
  intros Hk Hb.
  rewrite (handle_listener e sid k (JoinRoom roomId) _ s Hk eq_refl).
  unfold join_room. by rewrite Hb.
Qed.

Lemma join_room_ok e sid k roomId board s :
  sockets s !! sid = Some k →
  readBoard roomId s = Some board →
  address k ∉ bannedIPs board →
  ∃ s', handle e sid (JoinRoom roomId) s =
          (s', [Callback sid (JoinOk (joined_board e sid k board));
                IoToRoom roomId
                  (UpdateMembers (members (joined_board e sid k board)))])
      ∧ readBoard roomId s' = Some (joined_board e sid k board).
Proof.
  intros Hk Hb Hban.
  rewrite (handle_listener e sid k (JoinRoom roomId) _ s Hk eq_refl).
  unfold join_room. rewrite Hb. rewrite bool_decide_eq_false_2 by done.
  eexists. split; [reflexivity|]. apply readBoard_writeBoard.
Qed.

(** What a successful reply tells about the state before the join. *)
Lemma join_room_success_inv e sid k roomId s bd :
  sockets s !! sid = Some k →
  Callback sid (JoinOk bd) ∈ (handle e sid (JoinRoom roomId) s).2 →
  ∃ board, readBoard roomId s = Some board ∧ address k ∉ bannedIPs board.
Proof.
  intros Hk Hin.
  destruct (readBoard roomId s) as [board|] eqn:Hb.
  - exists board. split; [done|]. intros Hban.
    rewrite (join_room_banned e _ _ _ _ _ Hk Hb Hban) in Hin.
    cbn [snd] in Hin. apply list_elem_of_singleton in Hin. discriminate.
  - rewrite (join_room_missing e _ _ _ _ Hk Hb) in Hin.
    cbn [snd] in Hin. apply list_elem_of_singleton in Hin. discriminate.
Qed.

(** C7 (as stated).  The claim: joining a room twice with the same member
    id never produces two entries in [members].  A client that has
    authenticated with the array [[7]] as its id joins the room from two
    connections: the record written by the first join is not found by the
    second, since the array in the re-read document and the array held by
    the socket are two objects, and a second record with the same id is
    appended. *)
Lemma join_room_with_array_id_is_listed_twice :
  let s := Samples.two_tabs_array_id in
  let r1 := handle (Scenario.env "" "" 70) "sc" (JoinRoom Scenario.room) s in
  let r2 := handle (Scenario.env "" "" 80) "sd" (JoinRoom Scenario.room) r1.1 in
  reachable s ∧
  (∃ kc kd, sockets s !! "sc" = Some kc ∧ sockets r1.1 !! "sd" = Some kd ∧
            u_id (userInfo kc) = Obj "[7]" ∧ u_id (userInfo kd) = Obj "[7]") ∧
  (∃ bd, Callback "sc" (JoinOk bd) ∈ r1.2) ∧
  (∃ bd, Callback "sd" (JoinOk bd) ∈ r2.2) ∧
  ∃ b1 b2,
    readBoard Scenario.room r1.1 = Some b1 ∧
    readBoard Scenario.room r2.1 = Some b2 ∧
    member_ids b1 = [Prim (JStr "u1"); Prim (JStr "u2"); Obj "[7]"] ∧
    member_ids b2 = [Prim (JStr "u1"); Prim (JStr "u2"); Obj "[7]"; Obj "[7]"] ∧
    length (members b2) ≠ length (members b1) ∧
    ¬ NoDup (member_ids b2).
Proof.
  intros s r1 r2.
  split; [apply reachable_steps, reachable_lobby|].
  split; [eexists _, _; repeat split; vm_compute; reflexivity|].
  split; [eexists; vm_compute; apply list_elem_of_here|].
  split; [eexists; vm_compute; apply list_elem_of_here|].
  eexists _, _.
  split; [vm_compute; reflexivity|]. split; [vm_compute; reflexivity|].
  split; [vm_compute; reflexivity|]. split; [vm_compute; reflexivity|].
  split; [vm_compute; discriminate|].
  intros Hnd. apply (bool_decide_eq_true_2 _) in Hnd. vm_compute in Hnd.
  discriminate.
Qed.

(** C7 (amended).  Joining a room twice with the same member id, when that
    id is a primitive value (a string, a number, a boolean, [null] or a
    missing id), does not add a second entry: after a first
    successful join by a connection [a], a join by a connection [b]
    carrying the same member id leaves the length of [members] unchanged
    and keeps the ids distinct; when it succeeds, the existing record is
    the one updated, with status online and the socket id of [b]. *)
Theorem rejoin_updates_existing_member e1 e2 a b ka kb roomId s (v : primval) :
  let r1 := handle e1 a (JoinRoom roomId) s in
  let r2 := handle e2 b (JoinRoom roomId) r1.1 in
  let i := u_id (userInfo ka) in
  sockets s !! a = Some ka →
  (∃ bd, Callback a (JoinOk bd) ∈ r1.2) →
  sockets r1.1 !! b = Some kb →
  u_id (userInfo kb) = i →
  i = Prim v →
  ∃ b1 b2 m,
    readBoard roomId r1.1 = Some b1 ∧
    readBoard roomId r2.1 = Some b2 ∧
    find (is_member i) (members b1) = Some m ∧
    length (members b2) = length (members b1) ∧
    (NoDup (member_ids b1) → NoDup (member_ids b2)) ∧
    ((∃ bd, Callback b (JoinOk bd) ∈ r2.2) →
       members b2 = update_first (is_member i) (rejoin b) (members b1) ∧
       find (is_member i) (members b2) = Some (rejoin b m) ∧
       m_status (rejoin b m) = online ∧ m_socketId (rejoin b m) = b).
Proof.
  intros r1 r2 i Hka [bd Hok] Hkb Hid Hv. subst r1 r2.
  destruct (join_room_success_inv _ _ _ _ _ _ Hka Hok) as (board & Hb & Hnb).
  destruct (join_room_ok e1 _ _ _ _ _ Hka Hb Hnb) as (s1 & Hr1 & Hb1).
  rewrite Hr1 in Hkb |- *. cbn [fst] in Hkb |- *.
  destruct (upsert_member_finds a (userInfo ka) (members board) v Hv) as [m Hm].
  exists (joined_board e1 a ka board).
  destruct (decide (address kb ∈ bannedIPs (joined_board e1 a ka board)))
    as [Hban|Hban].
  - rewrite (join_room_banned e2 _ _ _ _ _ Hkb Hb1 Hban). cbn [fst snd].
    exists (joined_board e1 a ka board), m.
    repeat split; try done.
    all: destruct H as [bd' Hin]; apply list_elem_of_singleton in Hin;
      discriminate.
  - destruct (join_room_ok e2 _ _ _ _ _ Hkb Hb1 Hban) as (s2 & Hr2 & Hb2).
    rewrite Hr2. cbn [fst snd].
    exists (joined_board e2 b kb (joined_board e1 a ka board)), m.
    assert (Hup : members (joined_board e2 b kb (joined_board e1 a ka board))
                  = update_first (is_member i) (rejoin b)
                      (members (joined_board e1 a ka board))).
    { rewrite <- Hid.
      apply (upsert_member_known b (userInfo kb) _ m). rewrite Hid. exact Hm. }
    assert (Hfm : is_member i (rejoin b m) = true).
    { apply find_some in Hm as [_ Hm]. exact Hm. }
    split; [done|]. split; [done|]. split; [exact Hm|].
    split; [rewrite Hup; apply update_first_length|].
    split.
    { unfold member_ids. rewrite Hup. by rewrite update_first_fmap. }
    intros _. split; [exact Hup|]. split; [|done].
    rewrite Hup. by apply update_first_find.
Qed.

Lemma rejoin_updates_existing_member_witness :
  let r1 := handle (Scenario.env "" "" 70) "sb" (JoinRoom Scenario.room)
              Scenario.second_tab in
  let r2 := handle (Scenario.env "" "" 80) "sb2" (JoinRoom Scenario.room)
              r1.1 in
  ∃ b1 b2 m,
    readBoard Scenario.room r1.1 = Some b1 ∧
    readBoard Scenario.room r2.1 = Some b2 ∧
    find (is_member (JStr "u2")) (members b1) = Some m ∧
    length (members b2) = length (members b1) ∧
    members b2 =
      update_first (is_member (JStr "u2")) (rejoin "sb2") (members b1) ∧
    find (is_member (JStr "u2")) (members b2) = Some (rejoin "sb2" m) ∧
    m_status (rejoin "sb2" m) = online ∧
    m_socketId (rejoin "sb2" m) = "sb2".
Proof.
  intros r1 r2.
  destruct (rejoin_updates_existing_member
              (Scenario.env "" "" 70) (Scenario.env "" "" 80) "sb" "sb2"
              {| userInfo := Scenario.bob; currentRoom := Some Scenario.room;
                 address := "1.2.3.4";
                 rooms := {[ Scenario.room ]} ∪ {[ "sb" ]} |}
              {| userInfo := Scenario.bob; currentRoom := None;
                 address := "5.6.7.8"; rooms := {[ "sb2" ]} |}
              Scenario.room Scenario.second_tab (JStr "u2"))
    as (b1 & b2 & m & Hb1 & Hb2 & Hm & Hlen & _ & Hok).
  - vm_compute. reflexivity.
  - eexists. vm_compute. apply list_elem_of_here.
  - vm_compute. reflexivity.
  - reflexivity.
  - reflexivity.
  - exists b1, b2, m.
    split; [exact Hb1|]. split; [exact Hb2|]. split; [exact Hm|].
    split; [exact Hlen|]. apply Hok.
    eexists. vm_compute. apply list_elem_of_here.
Defined.

(** *** kick-user *)





(** *** Distinct member ids on every reachable state *)






End Membership.

(** ** The client *)

Module ClientFacts.
Import Client.

Lemma pop_snoc {A} (l : list A) x : pop (l ++ [x]) = Some (x, l).
Proof. unfold pop. by rewrite rev_unit, rev_involutive. Qed.

(** The selection half of [onPointerUp] leaves the stroke map alone and
    emits nothing but [update-strokes]. *)
Lemma finish_select_strokes a : strokes (finish_select a).1 = strokes a.
Proof.
  unfold finish_select. case_bool_decide; [|done].
  destruct (isSelecting a), (selectionRect a), (isDraggingSelection a);
    try done; by destruct (_ || _).
Qed.

Lemma finish_select_emits a m :
  m ∈ (finish_select a).2 → event_name m = "update-strokes".
Proof.
  unfold finish_select. case_bool_decide; [|by intros ?%elem_of_nil].
  destruct (isSelecting a), (selectionRect a), (isDraggingSelection a);
    try (by intros ?%elem_of_nil);
    destruct (_ || _); try (by intros ?%elem_of_nil);
    by intros ->%list_elem_of_singleton.
Qed.

(** C9.  When a pen stroke is completed ([onPointerUp] while drawing)
    with fewer than 2 points, it is deleted from the local stroke map and
    no [add-stroke] message is emitted; with at least 2 points it is sent
    with [add-stroke] under the client's room id. *)
Theorem short_stroke_is_discarded_long_one_sent a cs :
  isDrawing a = true →
  currentStroke a = Some cs →
  ∃ a' out,
    onPointerUp a = Some (a', out) ∧
    ((length (s_points cs) < 2)%nat →
       strokes a' = delete (to_key (s_id cs)) (strokes a) ∧
       strokes a' !! to_key (s_id cs) = None ∧
       (∀ m, m ∈ out → event_name m ≠ "add-stroke")) ∧
    ((2 ≤ length (s_points cs))%nat →
       AddStroke (roomId a) cs ∈ out ∧
       strokes a' = strokes a).
Proof.
  intros Hd Hc. unfold onPointerUp, finish_drawing.
  cbn [release_pointer isDrawing currentStroke set_isDrawing]. rewrite Hd, Hc.
  destruct (1 <? length (s_points cs))%nat eqn:Hlen.
  - apply Nat.ltb_lt in Hlen.
    destruct (finish_select _) as [a2 out2] eqn:Hsel.
    exists a2, ([AddStroke (roomId a) cs] ++ out2).
    split; [reflexivity|]. split; [lia|]. intros _. split.
    + apply elem_of_app. left. apply list_elem_of_here.
    + change a2 with (a2, out2).1. rewrite <- Hsel.
      by rewrite finish_select_strokes.
  - apply Nat.ltb_ge in Hlen.
    destruct (finish_select _) as [a2 out2] eqn:Hsel.
    exists a2, ([] ++ out2).
    split; [reflexivity|]. split; [|lia]. intros _.
    assert (Hs : strokes a2 = delete (to_key (s_id cs)) (strokes a)).
    { change a2 with (a2, out2).1. rewrite <- Hsel.
      by rewrite finish_select_strokes. }
    split; [exact Hs|]. split.
    + rewrite Hs. apply lookup_delete_eq.
    + intros m Hm Hname. simpl in Hm.
      change out2 with (a2, out2).2 in Hm. rewrite <- Hsel in Hm.
      apply finish_select_emits in Hm. rewrite Hname in Hm. discriminate.
Qed.

Lemma short_stroke_is_discarded_long_one_sent_witness :
  (∃ a' out,
     onPointerUp (Scenario.pen_down Scenario.dot) = Some (a', out) ∧
     strokes a' !! "temp-1700000000000" = None ∧
     (∀ m, m ∈ out → event_name m ≠ "add-stroke")) ∧
  (∃ a' out,
     onPointerUp (Scenario.pen_down (Scenario.line (JStr "temp-1")))
       = Some (a', out) ∧
     AddStroke Scenario.room (Scenario.line (JStr "temp-1")) ∈ out).
Proof.
  split.
  - destruct (short_stroke_is_discarded_long_one_sent
                (Scenario.pen_down Scenario.dot) Scenario.dot
                eq_refl eq_refl) as (a' & out & Hup & Hshort & _).
    exists a', out. split; [exact Hup|].
    destruct Hshort as (_ & Hgone & Hout); [simpl; lia|].
    split; [exact Hgone | exact Hout].
  - destruct (short_stroke_is_discarded_long_one_sent
                (Scenario.pen_down (Scenario.line (JStr "temp-1")))
                (Scenario.line (JStr "temp-1"))
                eq_refl eq_refl) as (a' & out & Hup & _ & Hlong).
    exists a', out. split; [exact Hup|].
    destruct Hlong as [Hsent _]; [simpl; lia|]. exact Hsent.
Defined.

(** C10.  [redo] with an [add] entry on top of the redo stack emits no
    message and leaves the stroke map (and everything but the two stacks)
    unchanged: the entry is popped from the redo stack and pushed on the
    undo stack. *)
Theorem redo_of_add_only_moves_the_entry a rest strokeId :
  redoStack a = rest ++ [HAdd strokeId] →
  redo a = (set_stacks (undoStack a ++ [HAdd strokeId]) rest a, []) ∧
  (redo a).2 = [] ∧
  strokes (redo a).1 = strokes a ∧
  redoStack (redo a).1 = rest ∧
  undoStack (redo a).1 = undoStack a ++ [HAdd strokeId].
Proof.
  intros Hr. unfold redo. rewrite Hr, pop_snoc. auto.
Qed.

Lemma redo_of_add_only_moves_the_entry_witness :
  (redo Scenario.after_undo).2 = [] ∧
  strokes (redo Scenario.after_undo).1 = ∅ ∧
  redoStack (redo Scenario.after_undo).1 = [] ∧
  undoStack (redo Scenario.after_undo).1 = [HAdd (JStr "temp-1")].
Proof.
  destruct (redo_of_add_only_moves_the_entry Scenario.after_undo []
              (JStr "temp-1") eq_refl) as (_ & Hout & Hs & Hr & Hu).
  auto.
Defined.

End ClientFacts.

(** ** The camera *)

Module ViewportFacts.
Import Viewport.
Local Open Scope R_scope.

Lemma wheel_up deltaY : deltaY < 0 → wheel deltaY = 1.
Proof. intros H. unfold wheel. destruct (Rlt_dec deltaY 0); [done | lra]. Qed.

(** The direction [onWheel] computes is the opposite of [Math.sign]. *)
Lemma wheel_sign deltaY : deltaY ≠ 0 → wheel deltaY = - sign deltaY.
Proof.
  intros H. unfold wheel, sign.
  destruct (Rlt_dec deltaY 0); [lra|].
  destruct (Rlt_dec 0 deltaY); lra.
Qed.

Lemma exp_tenth_gt_1 : 1 < exp (1 / 10).
Proof.
  pose proof (exp_increasing 0 (1 / 10)) as H. rewrite exp_0 in H. lra.
Qed.

Lemma exp_minus_tenth_bounds : 9 / 10 < exp (- (1 / 10)) < 1.
Proof.
  pose proof (exp_ineq1 (- (1 / 10))) as H1.
  pose proof (exp_increasing (- (1 / 10)) 0) as H2. rewrite exp_0 in H2.
  lra.
Qed.

Lemma clamp_bounds lo hi z : lo <= hi → lo <= Rmax lo (Rmin hi z) <= hi.
Proof.
  intros H. split; [apply Rmax_l|].
  apply Rmax_lub; [exact H | apply Rmin_l].
Qed.

Lemma clamp_inside lo hi z : lo <= z <= hi → Rmax lo (Rmin hi z) = z.
Proof.
  intros [H1 H2]. rewrite Rmin_right by exact H2. by apply Rmax_right.
Qed.

(** Without clamping, the point under the pointer is a fixed point of the
    step. *)
Lemma anchor_fixed c pos z :
  zoom c ≠ 0 →
  worldToScreen
    {| cam_x := (cam_x c - x pos) * z + x pos;
       cam_y := (cam_y c - y pos) * z + y pos;
       zoom := zoom c * z |}
    (screenToWorld c pos) = pos.
Proof.
  intros Hz. destruct pos as [px py]. unfold worldToScreen, screenToWorld.
  simpl. f_equal; field; exact Hz.
Qed.

(** C8 (as stated).  The claim: every wheel step multiplies the zoom by
    [exp(sign(deltaY) * 0.1)] and keeps the world point under the pointer
    at the same screen position, with the zoom inside the limits.  At the
    zoom limit 6, with the camera at [(100, 50)] and the pointer at the
    origin, a wheel step with [deltaY = -1] leaves the zoom at 6 but
    scales the offset by [exp(0.1)], so the point under the pointer
    moves. *)
Lemma wheel_step_at_zoom_limit_is_not_anchored :
  ¬ anchored_zoom_step Scenario.zoomed_in {| x := 0; y := 0 |} (-1).
Proof.
  unfold anchored_zoom_step, onWheel, Scenario.zoomed_in. simpl.
  rewrite (wheel_up (-1)) by lra. unfold zoomIntensity.
  replace (1 * (1 / 10)) with (1 / 10) by lra.
  pose proof exp_tenth_gt_1 as He.
  intros (_ & Hanchor & _).
  unfold worldToScreen, screenToWorld in Hanchor. simpl in Hanchor.
  injection Hanchor as Hx _.
  rewrite Rmin_left in Hx by lra. rewrite Rmax_right in Hx by lra.
  lra.
Qed.

(** C8 (amended).  A wheel step with [deltaY ≠ 0] multiplies the zoom by
    [exp(-sign(deltaY) * 0.1)] (scrolling up zooms in) and clamps the
    product to [[minZoom, maxZoom]], so the resulting zoom lies within the
    limits; when the product needs no clamping, the zoom is that product
    and the world point under the pointer maps to the same screen position
    before and after the step. *)
Theorem wheel_step_scales_clamps_and_anchors v pos deltaY :
  minZoom v <= maxZoom v →
  zoom (camera v) ≠ 0 →
  let factor := exp (wheel deltaY * zoomIntensity) in
  let v' := onWheel v pos deltaY in
  (deltaY ≠ 0 → factor = exp (- sign deltaY * zoomIntensity)) ∧
  zoom (camera v') =
    Rmax (minZoom v) (Rmin (maxZoom v) (zoom (camera v) * factor)) ∧
  minZoom v' <= zoom (camera v') <= maxZoom v' ∧
  (minZoom v <= zoom (camera v) * factor <= maxZoom v →
     zoom (camera v') = zoom (camera v) * factor ∧
     worldToScreen (camera v') (screenToWorld (camera v) pos) = pos).
Proof.
  intros Hlim Hz factor v'. subst factor v'. unfold onWheel.
  cbn [camera zoom minZoom maxZoom].
  split; [|split; [|split]].
  - intros H. f_equal. f_equal. apply wheel_sign, H.
  - reflexivity.
  - by apply clamp_bounds.
  - intros Hin. rewrite (clamp_inside _ _ _ Hin). split; [reflexivity|].
    by apply anchor_fixed.
Qed.

Lemma wheel_step_scales_clamps_and_anchors_witness :
  let v' := onWheel initial {| x := 10; y := 20 |} 100 in
  zoom (camera v') = exp (- (1 / 10)) ∧
  1 / 10 <= zoom (camera v') <= 6 ∧
  worldToScreen (camera v') (screenToWorld (camera initial) {| x := 10; y := 20 |})
    = {| x := 10; y := 20 |}.
Proof.
  intros v'.
  destruct (wheel_step_scales_clamps_and_anchors initial {| x := 10; y := 20 |} 100)
    as (Hf & _ & Hb & Hin).
  - simpl. lra.
  - simpl. lra.
  - pose proof exp_minus_tenth_bounds as He.
    assert (Hs : - sign 100 * zoomIntensity = - (1 / 10)).
    { unfold sign, zoomIntensity.
      destruct (Rlt_dec 100 0); [lra|]. destruct (Rlt_dec 0 100); lra. }
    rewrite Hf, Hs in Hin by lra.
    destruct Hin as [Hz Ha]; [simpl; lra|].
    split; [|split; [exact Hb | exact Ha]].
    subst v'. rewrite Hz. simpl. lra.
Defined.

End ViewportFacts.

(** ** Further properties of the server *)

Module RoomFacts.
Import Server ServerFacts ServerNotions Membership.

Lemma sockets_writeBoard now r b s : sockets (writeBoard now r b s) = sockets s.
Proof. reflexivity. Qed.

Lemma readBoard_set_sockets r k s : readBoard r (set_sockets k s) = readBoard r s.
Proof. reflexivity. Qed.

(** *** join-room: failures *)

(** X1.  A [join-room] whose room id is a file name (it has no path
    separator) and for which no board exists is answered
    [{success: false, message: "Room not found."}]; and whenever such a
    join is answered with a failure, that answer is the only thing sent,
    its message is one of the two the handler knows, and the server state
    is unchanged. *)
Theorem join_room_failure_changes_nothing e sid k roomId s :
  is_file_name roomId = true →
  sockets s !! sid = Some k →
  let result := handle e sid (JoinRoom roomId) s in
  (readBoard roomId s = None →
     result = (s, [Callback sid (JoinFailed "Room not found.")])) ∧
  (∀ msg, Callback sid (JoinFailed msg) ∈ result.2 →
     result = (s, [Callback sid (JoinFailed msg)]) ∧
     (msg = "Room not found." ∨ msg = banned_message)).
Proof.
  intros _ Hk result. subst result. split.
  - intros Hb. by apply (join_room_missing e sid k).
  - intros msg Hin.
    destruct (readBoard roomId s) as [board|] eqn:Hb.
    + destruct (decide (address k ∈ bannedIPs board)) as [Hban|Hban].
      * rewrite (join_room_banned e _ _ _ _ _ Hk Hb Hban) in Hin |- *.
        cbn [snd] in Hin. apply list_elem_of_singleton in Hin.
        injection Hin as ->. auto.
      * destruct (join_room_ok e _ _ _ _ _ Hk Hb Hban) as (s' & Hr & _).
        rewrite Hr in Hin. cbn [snd] in Hin.
        apply elem_of_cons in Hin as [Hin|Hin]; [discriminate|].
        apply list_elem_of_singleton in Hin. discriminate.
    + rewrite (join_room_missing e _ _ _ _ Hk Hb) in Hin |- *.
      cbn [snd] in Hin. apply list_elem_of_singleton in Hin.
      injection Hin as ->. auto.
Qed.

Lemma join_room_failure_changes_nothing_witness :
  handle (Scenario.env "" "" 90) "sa" (JoinRoom "ABC123") Scenario.lobby
  = (Scenario.lobby, [Callback "sa" (JoinFailed "Room not found.")]).
Proof.
  refine (proj1 (join_room_failure_changes_nothing
                   (Scenario.env "" "" 90) "sa"
                   {| userInfo := Scenario.alice;
                      currentRoom := Some Scenario.room;
                      address := "9.9.9.9";
                      rooms := {[ Scenario.room ]} ∪ {[ "sa" ]} |}
                   "ABC123" Scenario.lobby _ _) _).
  - reflexivity.
  - vm_compute. reflexivity.
  - vm_compute. reflexivity.
Defined.

(** *** Requests for a room that does not exist *)

(** X2.  [add-stroke], [delete-stroke], [clear-board] and [kick-user]
    addressed to a room without a board, under a room id that is a file
    name (no path separator), leave the server state unchanged and send
    nothing, not even an error to the caller. *)
Theorem mutation_of_missing_room_is_ignored e sid m r s :
  target_room m = Some r →
  is_file_name r = true →
  readBoard r s = None →
  handle e sid m s = (s, []).
Proof.
  intros Ht _ Hb. unfold handle.
  destruct (sockets s !! sid) as [k|]; [|reflexivity].
  destruct (bool_decide _); [|reflexivity].
  destruct m; try discriminate; injection Ht as ->; cbn [listener].
  - unfold add_stroke. by rewrite Hb.
  - unfold delete_stroke. by rewrite Hb.
  - unfold clear_board. by rewrite Hb.
  - unfold kick_user. by rewrite Hb.
Qed.

Lemma mutation_of_missing_room_is_ignored_witness :
  handle (Scenario.env "" "u" 90) "sa"
    (AddStroke "ABC123" (Scenario.line (JStr "s9"))) Scenario.lobby
  = (Scenario.lobby, []).
Proof.
  apply (mutation_of_missing_room_is_ignored _ _ _ "ABC123").
  - reflexivity.
  - reflexivity.
  - vm_compute. reflexivity.
Defined.

(** *** add-stroke *)

(** X3.  A stroke that arrives with a non-empty id (other than
    [__proto__]) is stored under exactly that id, unchanged, replacing any
    stroke already there; every other stroke is untouched, and
    [new-stroke] with the same id and data goes to the whole room, sender
    included. *)
Theorem add_stroke_keeps_supplied_id e sid k roomId strokeData i board s :
  sockets s !! sid = Some k →
  readBoard roomId s = Some board →
  s_id strokeData = JStr i →
  truthy_str i = true →
  i ≠ "__proto__" →
  let result := handle e sid (AddStroke roomId strokeData) s in
  result.2 = [IoToRoom roomId (NewStroke i strokeData)] ∧
  ∃ board',
    readBoard roomId result.1 = Some board' ∧
    strokes board' !! i = Some strokeData ∧
    (∀ j, j ≠ i → strokes board' !! j = strokes board !! j) ∧
    members board' = members board ∧ bannedIPs board' = bannedIPs board.
Proof.
  intros Hk Hb Hid Ht Hp result. subst result.
  rewrite (StrokeProtocol.add_stroke_eq e _ _ _ _ _ _ Hk Hb). cbn zeta.
  assert (Hkey : or_else (s_id strokeData) (uuid e) = i).
  { unfold or_else. rewrite Hid. simpl. by rewrite Ht. }
  assert (Hst : with_id i strokeData = strokeData).
  { unfold with_id. by rewrite Hid. }
  rewrite Hkey, Hst. cbn [fst snd]. split; [reflexivity|].
  eexists. split; [apply readBoard_writeBoard|]. simpl.
  unfold JS.set. rewrite bool_decide_eq_false_2 by exact Hp.
  split; [apply lookup_insert_eq|]. split; [|done].
  intros j Hj. by apply lookup_insert_ne.
Qed.

Lemma add_stroke_keeps_supplied_id_witness :
  (handle (Scenario.env "" "u" 90) "sb"
     (AddStroke Scenario.room (Scenario.line (JStr "s3"))) Scenario.drawing).2
  = [IoToRoom Scenario.room (NewStroke "s3" (Scenario.line (JStr "s3")))].
Proof.
  refine (proj1 (add_stroke_keeps_supplied_id
                   (Scenario.env "" "u" 90) "sb" _ Scenario.room
                   (Scenario.line (JStr "s3")) "s3" _ Scenario.drawing
                   _ _ eq_refl eq_refl _)).
  - vm_compute. reflexivity.
  - vm_compute. reflexivity.
  - discriminate.
Defined.

(** X4.  Adding a stroke under a non-empty id and then deleting that id
    (by any live connection) leaves the board without that id and with
    every other stroke as before the addition; the deletion is broadcast
    to the room. *)
Theorem add_then_delete_removes_the_stroke
    e1 e2 sid sid' k k' roomId strokeData i board s :
  sockets s !! sid = Some k →
  sockets s !! sid' = Some k' →
  readBoard roomId s = Some board →
  s_id strokeData = JStr i →
  truthy_str i = true →
  i ≠ "__proto__" →
  let s1 := (handle e1 sid (AddStroke roomId strokeData) s).1 in
  let result := handle e2 sid' (DeleteStroke roomId i) s1 in
  result.2 = [IoToRoom roomId (StrokeDeleted i)] ∧
  ∃ board',
    readBoard roomId result.1 = Some board' ∧
    strokes board' = delete i (strokes board) ∧
    strokes board' !! i = None.
Proof.
  intros Hk Hk' Hb Hid Ht Hp s1 result. subst s1 result.
  rewrite (StrokeProtocol.add_stroke_eq e1 _ _ _ _ _ _ Hk Hb). cbn zeta.
  assert (Hkey : or_else (s_id strokeData) (uuid e1) = i).
  { unfold or_else. rewrite Hid. simpl. by rewrite Ht. }
  rewrite Hkey. cbn [fst].
  erewrite (StrokeProtocol.delete_stroke_present e2 sid' k' roomId i);
    [ | exact Hk' | apply readBoard_writeBoard | ].
  2:{ simpl. unfold JS.set. rewrite bool_decide_eq_false_2 by exact Hp.
      apply lookup_insert_eq. }
  cbn [fst snd]. split; [reflexivity|].
  eexists. split; [apply readBoard_writeBoard|]. simpl.
  unfold JS.set. rewrite bool_decide_eq_false_2 by exact Hp.
  rewrite delete_insert_eq. split; [reflexivity|]. apply lookup_delete_eq.
Qed.

Lemma add_then_delete_removes_the_stroke_witness :
  let s1 := (handle (Scenario.env "" "u" 90) "sa"
               (AddStroke Scenario.room (Scenario.line (JStr "s3")))
               Scenario.lobby).1 in
  (handle (Scenario.env "" "u" 95) "sb" (DeleteStroke Scenario.room "s3") s1).2
  = [IoToRoom Scenario.room (StrokeDeleted "s3")].
Proof.
  refine (proj1 (add_then_delete_removes_the_stroke
                   (Scenario.env "" "u" 90) (Scenario.env "" "u" 95)
                   "sa" "sb" _ _ Scenario.room
                   (Scenario.line (JStr "s3")) "s3" _ Scenario.lobby
                   _ _ _ eq_refl eq_refl _)).
  - vm_compute. reflexivity.
  - vm_compute. reflexivity.
  - vm_compute. reflexivity.
  - discriminate.
Defined.

End RoomFacts.

Module ModerationFacts.
Import Server ServerFacts ServerNotions Membership.

(** X5.  A [kick-user] from a connection whose identity is not the
    board's owner, or naming an id that is not in the member list, changes
    nothing and sends nothing. *)
Theorem kick_user_unauthorised_is_ignored e sid k roomId uid board s :
  sockets s !! sid = Some k →
  readBoard roomId s = Some board →
  u_id (userInfo k) ≠ owner board ∨
    find (is_member uid) (members board) = None →
  handle e sid (KickUser roomId uid) s = (s, []).
Proof.
  intros Hk Hb Hno.
  rewrite (handle_listener e sid k (KickUser roomId uid) _ s Hk eq_refl).
  unfold kick_user. rewrite Hb.
  destruct (strict_eq (owner board) (u_id (userInfo k))) eqn:Ho; [|done].
  destruct Hno as [Hne | ->]; [|done].
  apply strict_eq_true in Ho. congruence.
Qed.

Lemma kick_user_unauthorised_is_ignored_witness :
  handle (Scenario.env "" "" 90) "sb" (KickUser Scenario.room (JStr "u1"))
    Scenario.lobby = (Scenario.lobby, []).
Proof.
  eapply (kick_user_unauthorised_is_ignored _ "sb" _ Scenario.room).
  - vm_compute. reflexivity.
  - vm_compute. reflexivity.
  - left. vm_compute. discriminate.
Defined.

(** X6.  When the owner kicks a member whose recorded socket is no longer
    connected, nobody is banned: the ban list and the live sockets are
    unchanged, the member is marked offline in the persisted board, and
    the only thing sent is [update-members] to the room. *)
Theorem kick_user_without_connection_bans_nobody
    e sid k roomId uid board target s :
  sockets s !! sid = Some k →
  readBoard roomId s = Some board →
  strict_eq (owner board) (u_id (userInfo k)) = true →
  find (is_member uid) (members board) = Some target →
  sockets s !! m_socketId target = None →
  let result := handle e sid (KickUser roomId uid) s in
  ∃ board',
    readBoard roomId result.1 = Some board' ∧
    bannedIPs board' = bannedIPs board ∧
    find (is_member uid) (members board') = Some (set_m_status offline target) ∧
    sockets result.1 = sockets s ∧
    result.2 = [IoToRoom roomId (UpdateMembers (members board'))].
Proof.
  intros Hk Hb Ho Hf Ht result. subst result.
  rewrite (handle_listener e sid k (KickUser roomId uid) _ s Hk eq_refl).
  unfold kick_user. rewrite Hb, Ho, Hf, Ht.
  cbn [fst snd]. eexists. split; [apply readBoard_writeBoard|].
  split; [reflexivity|]. split; [|split; reflexivity].
  simpl. apply update_first_find; [exact Hf|].
  apply find_some in Hf as [_ Hm]. exact Hm.
Qed.

Lemma kick_user_without_connection_bans_nobody_witness :
  let result := handle (Scenario.env "" "" 90) "sa"
                  (KickUser Scenario.room (JStr "u2")) Samples.bob_left in
  ∃ board',
    readBoard Scenario.room result.1 = Some board' ∧
    bannedIPs board' = [] ∧
    result.2 = [IoToRoom Scenario.room (UpdateMembers (members board'))].
Proof.
  intros result.
  destruct (kick_user_without_connection_bans_nobody
              (Scenario.env "" "" 90) "sa"
              {| userInfo := Scenario.alice; currentRoom := Some Scenario.room;
                 address := "9.9.9.9";
                 rooms := {[ Scenario.room ]} ∪ {[ "sa" ]} |}
              Scenario.room (JStr "u2")
              {| roomId := Scenario.room; owner := JStr "u1";
                 createdAt := 20; lastModified := 60;
                 expiryDate := 22 + 14 * 24 * 60 * 60 * 1000;
                 strokes := ∅;
                 members :=
                   [ {| m_id := JStr "u1"; m_username := "alice";
                        m_status := online; m_socketId := "sa" |};
                     {| m_id := JStr "u2"; m_username := "bob";
                        m_status := offline; m_socketId := "sb" |} ];
                 bannedIPs := [] |}
              {| m_id := JStr "u2"; m_username := "bob";
                 m_status := offline; m_socketId := "sb" |}
              Samples.bob_left)
    as (board' & Hb' & Hban & _ & _ & Hout).
  - vm_compute. reflexivity.
  - vm_compute. reflexivity.
  - reflexivity.
  - reflexivity.
  - vm_compute. reflexivity.
  - exists board'. split; [exact Hb'|]. split; [exact Hban | exact Hout].
Defined.

(** X13.  The owner check of [clear-board] compares the owner recorded in
    the board with the identity the connection last asserted through
    [authenticate], which nothing verifies.  When the owner's id is a
    primitive value, any live connection that authenticates with it can
    clear the board.  When the owner's id is an object or an array, the
    comparison fails for every caller, a connection asserting a copy of
    that id included, and the request is ignored. *)
Theorem clear_board_trusts_asserted_identity e1 e2 sid k roomId board name s :
  sockets s !! sid = Some k →
  readBoard roomId s = Some board →
  let claimed := {| u_id := owner board; u_username := name |} in
  let s1 := (handle e1 sid (Authenticate claimed) s).1 in
  let result := handle e2 sid (ClearBoard roomId) s1 in
  (∀ v : primval, owner board = Prim v →
     result.2 = [IoToRoom roomId BoardCleared] ∧
     ∃ board', readBoard roomId result.1 = Some board' ∧ strokes board' = ∅) ∧
  (∀ json, owner board = Obj json → result = (s1, [])).
Proof.
  intros Hk Hb claimed s1 result. subst s1 result.
  rewrite (handle_listener e1 sid k (Authenticate claimed) _ s Hk eq_refl).
  unfold authenticate. cbn [fst].
  set (s1 := set_sockets _ s).
  assert (Hk1 : sockets s1 !! sid = Some (set_userInfo claimed k))
    by apply lookup_insert_eq.
  split.
  - intros v Hv.
    rewrite (StrokeProtocol.clear_board_by_owner e2 sid
               (set_userInfo claimed k) roomId board s1 Hk1 Hb).
    + cbn [fst snd]. split; [reflexivity|].
      eexists. split; [apply readBoard_writeBoard|]. reflexivity.
    + simpl. rewrite Hv. apply strict_eq_refl.
  - intros json Ho.
    rewrite (handle_listener e2 sid _ (ClearBoard roomId) _ s1 Hk1 eq_refl).
    unfold clear_board.
    change (readBoard roomId s1) with (readBoard roomId s). rewrite Hb.
    simpl. by rewrite Ho.
Qed.

Lemma clear_board_trusts_asserted_identity_witness :
  let claimed := {| u_id := JStr "u1"; u_username := "mallory" |} in
  let s1 := (handle (Scenario.env "" "" 90) "sb" (Authenticate claimed)
               Scenario.drawing).1 in
  (handle (Scenario.env "" "" 95) "sb" (ClearBoard Scenario.room) s1).2
  = [IoToRoom Scenario.room BoardCleared].
Proof.
  refine (proj1 (proj1 (clear_board_trusts_asserted_identity
                   (Scenario.env "" "" 90) (Scenario.env "" "" 95) "sb"
                   {| userInfo := Scenario.bob;
                      currentRoom := Some Scenario.room;
                      address := "1.2.3.4";
                      rooms := {[ Scenario.room ]} ∪ {[ "sb" ]} |}
                   Scenario.room
                   {| roomId := Scenario.room; owner := JStr "u1";
                      createdAt := 20; lastModified := 70;
                      expiryDate := 22 + 14 * 24 * 60 * 60 * 1000;
                      strokes :=
                        {[ "s1" := Scenario.line (JStr "s1");
                           "s2" := Scenario.line (JStr "s2") ]};
                      members :=
                        [ {| m_id := JStr "u1"; m_username := "alice";
                             m_status := online; m_socketId := "sa" |};
                          {| m_id := JStr "u2"; m_username := "bob";
                             m_status := online; m_socketId := "sb" |} ];
                      bannedIPs := [] |}
                   "mallory" Scenario.drawing _ _) (JStr "u1") eq_refl)).
  - vm_compute. reflexivity.
  - vm_compute. reflexivity.
Defined.

End ModerationFacts.

Module PresenceFacts.
Import Server ServerFacts ServerNotions Membership.







End PresenceFacts.

Module StoreFacts.
Import Server ServerFacts ServerNotions Membership Sweep.

(** *** Boards only grow *)

Lemma board_extends_refl b : board_extends b b.
Proof. by repeat split. Qed.

Lemma board_extends_stamp b b' t :
  board_extends b b' → board_extends b (set_lastModified t b').
Proof. intros H. exact H. Qed.

Lemma board_extends_strokes b ss : board_extends b (set_strokes ss b).
Proof. by repeat split. Qed.

Lemma board_extends_status p st b :
  board_extends b (set_members (update_first p (set_m_status st) (members b)) b).
Proof.
  repeat split; try done.
  unfold member_ids. simpl. by rewrite update_first_fmap.
Qed.

Lemma board_extends_upsert sid u b :
  board_extends b (set_members (upsert_member sid u (members b)) b).
Proof.
  repeat split; try done.
  unfold member_ids, upsert_member. simpl.
  destruct (find _ _).
  - by rewrite update_first_fmap.
  - rewrite fmap_app. by apply prefix_app_r.
Qed.

Lemma board_extends_kick p ip b :
  board_extends b
    (set_members
       (update_first p (set_m_status offline)
          (members (set_bannedIPs (bannedIPs b ++ [ip]) b)))
       (set_bannedIPs (bannedIPs b ++ [ip]) b)).
Proof.
  repeat split; try done.
  - simpl. by apply prefix_app_r.
  - unfold member_ids. simpl. by rewrite update_first_fmap.
Qed.

(** Writing a later version of the board read under [r0] keeps every
    board a later version of what it was. *)
Lemma writeBoard_extends now r0 b0 b00 s r b :
  readBoard r0 s = Some b00 →
  board_extends b00 b0 →
  readBoard r s = Some b →
  ∃ b', readBoard r (writeBoard now r0 b0 s) = Some b' ∧ board_extends b b'.
Proof.
  intros H0 Hext Hb. destruct (decide (r0 = r)) as [->|Hne].
  - rewrite readBoard_writeBoard. eexists. split; [done|].
    rewrite H0 in Hb. injection Hb as <-. exact Hext.
  - rewrite readBoard_writeBoard_ne by done.
    exists b. split; [done | apply board_extends_refl].
Qed.

Lemma disconnect_extends now sid k s r b :
  readBoard r s = Some b →
  ∃ b', readBoard r (disconnect now sid k s).1 = Some b' ∧ board_extends b b'.
Proof.
  intros Hb. unfold disconnect.
  pose proof (board_extends_refl b) as Hrefl.
  destruct (currentRoom k) as [room|]; [|by exists b].
  destruct (truthy_str room); [|by exists b].
  destruct (readBoard room _) as [board|] eqn:Hr; [|by exists b].
  destruct (find _ _); [|by exists b].
  cbn [fst]. eapply writeBoard_extends; [exact Hr | | exact Hb].
  apply board_extends_status.
Qed.

(** X8.  No request shortens a board's history.  Whatever message the
    server handles (a [create-room] whose fresh id collides with the room
    apart), a board that existed before still exists afterwards with the
    same [roomId], [owner], [createdAt] and [expiryDate]; its ban list
    and its list of member ids are the old ones, possibly with entries
    added at the end. *)
Theorem handled_message_extends_boards e sid m s r b :
  readBoard r s = Some b →
  (m = CreateRoom → generateRoomId (random36 e) ≠ r) →
  ∃ b', readBoard r (handle e sid m s).1 = Some b' ∧ board_extends b b'.
Proof.
  intros Hb Hfresh. unfold handle.
  pose proof (board_extends_refl b) as Hrefl.
  destruct (sockets s !! sid) as [k|]; [|by exists b].
  destruct (bool_decide _); [|by exists b].
  destruct m; cbn [listener]; try (by exists b).
  - unfold create_room. cbn [fst].
    rewrite readBoard_writeBoard_ne by (by apply Hfresh). by exists b.
  - unfold join_room.
    destruct (readBoard roomId0 s) as [board|] eqn:Hr; [|by exists b].
    destruct (bool_decide _); [by exists b|]. cbn [fst].
    eapply writeBoard_extends; [exact Hr | | exact Hb].
    apply board_extends_upsert.
  - unfold add_stroke.
    destruct (readBoard roomId0 s) as [board|] eqn:Hr; [|by exists b].
    cbn [fst]. eapply writeBoard_extends; [exact Hr | | exact Hb].
    apply board_extends_strokes.
  - unfold delete_stroke.
    destruct (readBoard roomId0 s) as [board|] eqn:Hr; [|by exists b].
    destruct (get_truthy _ _); [|by exists b].
    cbn [fst]. eapply writeBoard_extends; [exact Hr | | exact Hb].
    apply board_extends_strokes.
  - unfold clear_board.
    destruct (readBoard roomId0 s) as [board|] eqn:Hr; [|by exists b].
    destruct (strict_eq _ _); [|by exists b].
    cbn [fst]. eapply writeBoard_extends; [exact Hr | | exact Hb].
    apply board_extends_strokes.
  - unfold kick_user.
    destruct (readBoard roomId0 s) as [board|] eqn:Hr; [|by exists b].
    destruct (strict_eq _ _); [|by exists b].
    destruct (find _ _) as [target|]; [|by exists b].
    destruct (sockets s !! m_socketId target) as [tsock|].
    + destruct (disconnect_extends (clock e 0) (m_socketId target) tsock s r b Hb)
        as (b1 & Hb1 & Hext1).
      destruct (disconnect _ _ _ _) as [s1 out1]. cbn [fst] in Hb1 |- *.
      destruct (decide (roomId0 = r)) as [->|Hne].
      * rewrite readBoard_writeBoard. eexists. split; [done|].
        rewrite Hr in Hb. injection Hb as <-. apply board_extends_kick.
      * rewrite readBoard_writeBoard_ne by done. by exists b1.
    + cbn [fst]. eapply writeBoard_extends; [exact Hr | | exact Hb].
      apply board_extends_status.
  - by apply disconnect_extends.
Qed.

Lemma handled_message_extends_boards_witness :
  ∃ b', readBoard Scenario.room
          (handle (Scenario.env "" "" 90) "sa"
             (KickUser Scenario.room (JStr "u2")) Scenario.lobby).1 = Some b'
        ∧ expiryDate b' = (22 + 14 * 24 * 60 * 60 * 1000)%Z
        ∧ owner b' = JStr "u1".
Proof.
  destruct (handled_message_extends_boards
              (Scenario.env "" "" 90) "sa"
              (KickUser Scenario.room (JStr "u2")) Scenario.lobby
              Scenario.room
              {| roomId := Scenario.room; owner := JStr "u1";
                 createdAt := 20; lastModified := 50;
                 expiryDate := 22 + 14 * 24 * 60 * 60 * 1000;
                 strokes := ∅;
                 members :=
                   [ {| m_id := JStr "u1"; m_username := "alice";
                        m_status := online; m_socketId := "sa" |};
                     {| m_id := JStr "u2"; m_username := "bob";
                        m_status := online; m_socketId := "sb" |} ];
                 bannedIPs := [] |})
    as (b' & Hb' & _ & Ho & _ & He & _).
  - vm_compute. reflexivity.
  - discriminate.
  - exists b'. split; [exact Hb'|]. split; [exact He | exact Ho].
Defined.

(** *** Boards are stored under their own id *)

Lemma own_id_writeBoard now r b s :
  stored_under_own_id s → roomId b = r →
  stored_under_own_id (writeBoard now r b s).
Proof.
  intros Hs Hb r' b'. unfold writeBoard. simpl.
  rewrite lookup_insert. case_decide; [|apply Hs].
  intros [= <-]. by subst.
Qed.

Lemma own_id_disconnect now sid k s :
  stored_under_own_id s → stored_under_own_id (disconnect now sid k s).1.
Proof.
  intros Hs. unfold disconnect.
  destruct (currentRoom k) as [room|]; [|exact Hs].
  destruct (truthy_str room); [|exact Hs].
  destruct (readBoard room _) as [board|] eqn:Hr; [|exact Hs].
  destruct (find _ _); [|exact Hs].
  cbn [fst]. apply own_id_writeBoard; [exact Hs|]. exact (Hs room board Hr).
Qed.

Lemma own_id_handle e sid m s :
  stored_under_own_id s → stored_under_own_id (handle e sid m s).1.
Proof.
  intros Hs. unfold handle.
  destruct (sockets s !! sid) as [k|]; [|exact Hs].
  destruct (bool_decide _); [|exact Hs].
  destruct m; cbn [listener fst]; try exact Hs.
  - unfold create_room. cbn [fst]. by apply own_id_writeBoard.
  - unfold join_room.
    destruct (readBoard roomId0 s) as [board|] eqn:Hr; [|exact Hs].
    destruct (bool_decide _); [exact Hs|]. cbn [fst].
    apply own_id_writeBoard; [exact Hs | exact (Hs roomId0 board Hr)].
  - unfold add_stroke.
    destruct (readBoard roomId0 s) as [board|] eqn:Hr; [|exact Hs].
    cbn [fst]. apply own_id_writeBoard; [exact Hs | exact (Hs roomId0 board Hr)].
  - unfold delete_stroke.
    destruct (readBoard roomId0 s) as [board|] eqn:Hr; [|exact Hs].
    destruct (get_truthy _ _); [|exact Hs].
    cbn [fst]. apply own_id_writeBoard; [exact Hs | exact (Hs roomId0 board Hr)].
  - unfold clear_board.
    destruct (readBoard roomId0 s) as [board|] eqn:Hr; [|exact Hs].
    destruct (strict_eq _ _); [|exact Hs].
    cbn [fst]. apply own_id_writeBoard; [exact Hs | exact (Hs roomId0 board Hr)].
  - unfold kick_user.
    destruct (readBoard roomId0 s) as [board|] eqn:Hr; [|exact Hs].
    destruct (strict_eq _ _); [|exact Hs].
    destruct (find _ _) as [target|]; [|exact Hs].
    pose proof (Hs roomId0 board Hr) as Hid.
    destruct (sockets s !! m_socketId target) as [tsock|].
    + pose proof (own_id_disconnect (clock e 0) (m_socketId target) tsock s Hs)
        as Hd.
      destruct (disconnect _ _ _ _) as [s1 out1]. cbn [fst] in Hd |- *.
      apply own_id_writeBoard; [exact Hd | exact Hid].
    + cbn [fst]. apply own_id_writeBoard; [exact Hs | exact Hid].
  - by apply own_id_disconnect.
Qed.

Lemma own_id_run inputs : stored_under_own_id (run inputs).
Proof.
  unfold run. induction inputs as [|i inputs IH] using rev_ind.
  - intros r b. simpl. by rewrite lookup_empty.
  - rewrite fold_left_app. simpl. destruct i as [sid addr | e sid m]; simpl.
    + exact IH.
    + by apply own_id_handle.
Qed.

Lemma own_id_drawing : stored_under_own_id Scenario.drawing.
Proof.
  destruct reachable_drawing as [inputs <-]. apply own_id_run.
Qed.

(** X9.  On every state the server reaches, each board document is
    stored under the room id written inside it. *)
Theorem reachable_boards_stored_under_own_id s :
  reachable s → stored_under_own_id s.
Proof. intros [inputs <-]. apply own_id_run. Qed.

Lemma reachable_boards_stored_under_own_id_witness :
  stored_under_own_id Scenario.drawing.
Proof.
  apply reachable_boards_stored_under_own_id, reachable_drawing.
Defined.

(** *** The expiry sweep *)

Lemma cleanup_lookup now (l : list (string * Board)) (st : gmap string Board) r :
  foldr (λ kb st, if expired now kb.2 then delete (roomId kb.2) st else st) st l
    !! r =
  if existsb (λ kb, expired now kb.2 && bool_decide (roomId kb.2 = r)) l
  then None else st !! r.
Proof.
  induction l as [|kb l IH]; simpl; [done|].
  destruct (expired now kb.2) eqn:He; simpl; [|exact IH].
  case_bool_decide as Hr; simpl.
  - rewrite <- Hr. apply lookup_delete_eq.
  - rewrite lookup_delete_ne by done. exact IH.
Qed.

(** X10.  One sweep at time [now] removes exactly the boards whose
    [expiryDate] lies strictly before [now]: such a board can no longer be
    loaded, every other board is loaded unchanged (one expiring exactly
    at [now] included), and the live connections are not touched. *)
Theorem cleanup_removes_exactly_the_expired now s r :
  stored_under_own_id s →
  readBoard r (cleanup now s) =
    match readBoard r s with
    | Some b => if (expiryDate b <? now)%Z then None else Some b
    | None => None
    end ∧
  sockets (cleanup now s) = sockets s.
Proof.
  intros Hown. split; [|reflexivity].
  unfold readBoard, cleanup. simpl. rewrite cleanup_lookup.
  destruct (existsb _ _) eqn:Hex.
  - apply existsb_exists in Hex as ([k b] & Hin & Hcond).
    apply list_elem_of_In, elem_of_map_to_list in Hin.
    apply andb_true_iff in Hcond as [He Hr]. simpl in He, Hr.
    apply bool_decide_eq_true in Hr.
    rewrite (Hown k b Hin) in Hr. subst k. rewrite Hin.
    unfold expired in He. by rewrite He.
  - destruct (store s !! r) as [b|] eqn:Hb; [|done].
    destruct (expiryDate b <? now)%Z eqn:He; [|done].
    exfalso. apply not_true_iff_false in Hex. apply Hex.
    apply existsb_exists. exists (r, b). split.
    + by apply list_elem_of_In, elem_of_map_to_list.
    + simpl. unfold expired. rewrite He. simpl.
      apply bool_decide_eq_true. exact (Hown r b Hb).
Qed.

Lemma cleanup_removes_exactly_the_expired_witness :
  let expiry := (22 + 14 * 24 * 60 * 60 * 1000)%Z in
  is_Some (readBoard Scenario.room (cleanup expiry Scenario.drawing)) ∧
  readBoard Scenario.room (cleanup (expiry + 1) Scenario.drawing) = None.
Proof.
  intros expiry. split.
  - rewrite (proj1 (cleanup_removes_exactly_the_expired expiry
                      Scenario.drawing Scenario.room own_id_drawing)).
    vm_compute. eauto.
  - rewrite (proj1 (cleanup_removes_exactly_the_expired (expiry + 1)
                      Scenario.drawing Scenario.room own_id_drawing)).
    vm_compute. reflexivity.
Defined.

(** *** The sweep and the timing of its unlinks *)

Lemma sweep_file_own_id now st file :
  (∀ r b, st !! r = Some b → roomId b = r) →
  ∀ r b, sweep_file now st file !! r = Some b → roomId b = r.
Proof.
  intros Hown r b. unfold sweep_file.
  destruct (st !! file) as [bf|]; [|apply Hown].
  destruct (expired now bf); [|apply Hown].
  intros [_ Hb]%lookup_delete_Some. by apply Hown.
Qed.

Lemma cleanup_eager_lookup now files : ∀ st r,
  (∀ r b, st !! r = Some b → roomId b = r) →
  fold_left (sweep_file now) files st !! r =
    match st !! r with
    | Some b => if expired now b && bool_decide (r ∈ files) then None else Some b
    | None => None
    end.
Proof.
  induction files as [|f files IH]; intros st r Hown; cbn [fold_left].
  - destruct (st !! r) as [b|]; [|done].
    rewrite bool_decide_eq_false_2 by apply not_elem_of_nil.
    by rewrite andb_false_r.
  - rewrite (IH _ r (sweep_file_own_id now st f Hown)).
    unfold sweep_file. destruct (st !! f) as [bf|] eqn:Hf.
    + destruct (expired now bf) eqn:He.
      * rewrite (Hown f bf Hf). destruct (decide (r = f)) as [->|Hne].
        -- rewrite lookup_delete_eq, Hf, He.
           rewrite bool_decide_eq_true_2 by apply list_elem_of_here. done.
        -- rewrite lookup_delete_ne by done.
           destruct (st !! r) as [b|]; [|done].
           destruct (expired now b); [|done]. simpl.
           rewrite (bool_decide_ext (r ∈ files) (r ∈ f :: files)); [done|].
           rewrite elem_of_cons. split; [by right|].
           by intros [Heq|Hin].
      * destruct (st !! r) as [b|] eqn:Hr; [|done].
        destruct (expired now b) eqn:Heb; [|done]. simpl.
        rewrite (bool_decide_ext (r ∈ files) (r ∈ f :: files)); [done|].
        rewrite elem_of_cons. split; [by right|].
        intros [Heq|Hin]; [|done]. subst r. congruence.
    + destruct (st !! r) as [b|] eqn:Hr; [|done].
      destruct (expired now b) eqn:Heb; [|done]. simpl.
      rewrite (bool_decide_ext (r ∈ files) (r ∈ f :: files)); [done|].
      rewrite elem_of_cons. split; [by right|].
      intros [Heq|Hin]; [|done]. subst r. congruence.
Qed.

(** X30.  The outcome of a sweep does not depend on when its unlinks take
    effect, nor on the order of the directory listing: on a store where
    every board is filed under its own id, unlinking each expired file
    before the next one is read leaves the same state as unlinking them
    all after the last read. *)
Theorem sweep_outcome_is_independent_of_unlink_timing now files s :
  stored_under_own_id s →
  (∀ r, r ∈ files ↔ is_Some (readBoard r s)) →
  cleanup_eager now files s = cleanup now s.
Proof.
  intros Hown Hfiles. unfold cleanup_eager, cleanup. f_equal.
  apply map_eq. intros r.
  rewrite (cleanup_eager_lookup now files (store s) r Hown), cleanup_lookup.
  destruct (existsb _ _) eqn:Hex.
  - apply existsb_exists in Hex as ([k b] & Hin & Hcond).
    apply list_elem_of_In, elem_of_map_to_list in Hin.
    apply andb_true_iff in Hcond as [He Hr]. simpl in He, Hr.
    apply bool_decide_eq_true in Hr.
    rewrite (Hown k b Hin) in Hr. subst k. rewrite Hin, He.
    rewrite bool_decide_eq_true_2; [done|].
    apply Hfiles. unfold readBoard. rewrite Hin. eauto.
  - destruct (store s !! r) as [b|] eqn:Hb; [|done].
    destruct (expired now b) eqn:He; [|done].
    exfalso. apply not_true_iff_false in Hex. apply Hex.
    apply existsb_exists. exists (r, b). split.
    + by apply list_elem_of_In, elem_of_map_to_list.
    + simpl. rewrite He. simpl.
      apply bool_decide_eq_true. exact (Hown r b Hb).
Qed.

Lemma store_drawing :
  store Scenario.drawing = {[ Scenario.room := Samples.drawing_board ]}.
Proof. vm_compute. reflexivity. Qed.

Lemma sweep_outcome_is_independent_of_unlink_timing_witness :
  let late := (23 + 14 * 24 * 60 * 60 * 1000)%Z in
  cleanup_eager late [Scenario.room] Scenario.drawing =
    cleanup late Scenario.drawing.
Proof.
  intros late.
  apply (sweep_outcome_is_independent_of_unlink_timing late
           [Scenario.room] Scenario.drawing own_id_drawing).
  intros r. unfold readBoard. rewrite store_drawing, list_elem_of_singleton.
  split.
  - intros ->. rewrite lookup_singleton_eq. eauto.
  - intros [b Hb]. by apply lookup_singleton_Some in Hb as [? _].
Defined.

End StoreFacts.

Module UniquenessFacts.
Import Server ServerFacts Membership.



End UniquenessFacts.

(** ** User accounts *)

Module AccountFacts.
Import Accounts.

(** Between two strings (or [null], or missing fields) [===] is
    equality. *)
Lemma strict_eq_jsval (a b : jsval) : strict_eq a b = bool_decide (a = b).
Proof. simpl. apply bool_decide_ext. split; congruence. Qed.

Lemma has_username_true n u : has_username n u = true ↔ usr_username u = n.
Proof. unfold has_username. rewrite strict_eq_jsval. apply bool_decide_eq_true. Qed.

Lemma find_username_none n users :
  find (has_username n) users = None ↔ n ∉ usernames users.
Proof.
  unfold usernames. induction users as [|u users IH]; csimpl.
  - split; [intros _; apply not_elem_of_nil | done].
  - destruct (has_username n u) eqn:Hu.
    + apply has_username_true in Hu. split; [done|].
      intros Hn. exfalso. apply Hn. rewrite Hu. apply list_elem_of_here.
    + rewrite IH, not_elem_of_cons. split; [|tauto].
      intros Hn. split; [|done]. intros ->.
      assert (has_username (usr_username u) u = true)
        by (by apply has_username_true).
      congruence.
Qed.

Lemma find_app_none {A} (p : A → bool) l l' :
  find p l = None → find p (l ++ l') = find p l'.
Proof.
  induction l as [|x l IH]; simpl; [done|].
  destruct (p x); [done | exact IH].
Qed.

Lemma register_usernames uuid c users :
  (register uuid c users).1 = users ∨
  (truthy (username c) = true ∧ truthy (password c) = true ∧
   (username c ∉ usernames users) ∧
   (register uuid c users).1 =
     users ++ [ {| usr_id := uuid; usr_username := username c;
                   usr_password := password c |} ]).
Proof.
  unfold register.
  destruct (truthy (username c)) eqn:Hu; simpl; [|by left].
  destruct (truthy (password c)) eqn:Hp; simpl; [|by left].
  destruct (find _ users) eqn:Hf; [by left|].
  right. by apply find_username_none in Hf.
Qed.

(** X14.  Whatever registration requests (with string, [null] or absent
    fields) the server has served since the empty user file, no two stored
    accounts share a username, and every stored username and password is
    a non-empty string. *)
Theorem registered_usernames_are_distinct requests :
  NoDup (usernames (registered requests)) ∧
  ∀ u, u ∈ registered requests →
    truthy (usr_username u) = true ∧ truthy (usr_password u) = true.
Proof.
  unfold registered.
  induction requests as [|[uuid c] requests IH] using rev_ind.
  - split; [apply NoDup_nil_2 | by intros u ?%elem_of_nil].
  - rewrite fold_left_app. simpl.
    destruct IH as [Hnd Hok].
    destruct (register_usernames uuid c (fold_left
                (λ users r, (register r.1 r.2 users).1) requests []))
      as [Hsame | (Hu & Hp & Hfresh & Heq)].
    + rewrite Hsame. by split.
    + rewrite Heq. split.
      * unfold usernames. rewrite fmap_app. apply NoDup_app.
        split; [exact Hnd|]. split; [|apply NoDup_singleton].
        intros n Hn [->|[]%elem_of_nil]%elem_of_cons. by apply Hfresh.
      * intros u [Hin | ->%list_elem_of_singleton]%elem_of_app; [by apply Hok|].
        by split.
Qed.

(** X15.  Registration and login round trip (string credentials): when a
    registration is answered 201, a login with the same credentials is
    answered 200 with the id generated at registration and the same
    username. *)
Theorem register_then_login uuid c users :
  status (register uuid c users).2 = 201%nat →
  login c (register uuid c users).1 =
    {| status := 200; body := Account uuid (username c) |} ∧
  body (register uuid c users).2 = Account uuid (username c).
Proof.
  unfold register.
  destruct (_ || _); [discriminate|].
  destruct (find (has_username (username c)) users) eqn:Hf; [discriminate|].
  intros _. cbn [fst snd body]. split; [|reflexivity].
  unfold login. rewrite find_app_none by exact Hf. simpl.
  unfold has_username at 1. simpl usr_username. simpl usr_password.
  rewrite !strict_eq_jsval, !bool_decide_eq_true_2 by done. reflexivity.
Qed.

Lemma register_then_login_witness :
  let c := {| username := JStr "alice"; password := JStr "pw" |} in
  login c (register "id-1" c []).1 =
    {| status := 200; body := Account "id-1" (JStr "alice") |}.
Proof.
  intros c. apply (register_then_login "id-1" c []). reflexivity.
Defined.

(** X16.  On a user file without duplicate usernames, a login is answered
    200 exactly when some stored account has both the submitted username
    and the submitted password; every other login is answered 401. *)
Theorem login_succeeds_iff_credentials_stored c users :
  NoDup (usernames users) →
  (status (login c users) = 200%nat ↔
     ∃ u, u ∈ users ∧ usr_username u = username c ∧
          usr_password u = password c) ∧
  (status (login c users) = 200%nat ∨ status (login c users) = 401%nat).
Proof.
  intros Hnd. unfold login.
  induction users as [|x users IH]; cbn [find].
  - split; [|by right]. split; [discriminate|].
    by intros (u & ?%elem_of_nil & _).
  - unfold usernames in Hnd. rewrite fmap_cons in Hnd.
    apply NoDup_cons in Hnd as [Hx Hnd].
    destruct (has_username (username c) x) eqn:Hux.
    + apply has_username_true in Hux.
      rewrite strict_eq_jsval.
      destruct (bool_decide (usr_password x = password c)) eqn:Hpw; simpl.
      * apply bool_decide_eq_true in Hpw. split; [|by left].
        split; [|done]. intros _. exists x. split; [apply list_elem_of_here|done].
      * apply bool_decide_eq_false in Hpw. split; [|by right].
        split; [discriminate|].
        intros (u & [->|Hin]%elem_of_cons & Hu & Hp); [done|].
        exfalso. apply Hx. rewrite Hux, <- Hu.
        by apply list_elem_of_fmap_2.
    + destruct (IH Hnd) as [Hiff Hcases]. split; [|exact Hcases].
      rewrite Hiff. split.
      * intros (u & Hin & Hu & Hp). exists u.
        split; [by apply list_elem_of_further | done].
      * intros (u & [->|Hin]%elem_of_cons & Hu & Hp); [|by exists u].
        apply has_username_true in Hu. congruence.
Qed.

Lemma login_succeeds_iff_credentials_stored_witness :
  let users := registered
                 [ ("id-1", {| username := JStr "alice"; password := JStr "pw" |});
                   ("id-2", {| username := JStr "bob"; password := JStr "pw2" |}) ] in
  status (login {| username := JStr "bob"; password := JStr "pw" |} users)
    = 401%nat.
Proof.
  intros users.
  destruct (login_succeeds_iff_credentials_stored
              {| username := JStr "bob"; password := JStr "pw" |} users)
    as [Hiff [H200 | H401]].
  - apply (bool_decide_eq_true_1 _). vm_compute. reflexivity.
  - apply Hiff in H200 as (u & Hin & Hu & Hp).
    vm_compute in Hin.
    apply elem_of_cons in Hin as [-> | Hin]; [discriminate|].
    apply list_elem_of_singleton in Hin as ->. discriminate.
  - exact H401.
Defined.

End AccountFacts.

(** ** The client's copy of the board *)

Module ReplicaFacts.
Import Server ServerFacts ServerNotions Replica.

(** X17.  The listeners for [new-stroke], [stroke-deleted] and
    [board-cleared] (and those that do not touch the strokes) are
    idempotent on the stroke map: receiving such an event a second time,
    as the sender of an optimistic edit does with the echo, changes
    nothing. *)
Theorem absolute_events_are_idempotent ev ss :
  absolute ev = true →
  apply_event ev (apply_event ev ss) = apply_event ev ss.
Proof.
  destruct ev; simpl; intros Habs; try done.
  - unfold JS.set. case_bool_decide; [done|]. apply insert_insert_eq.
  - unfold JS.del. apply delete_delete_eq.
Qed.

Lemma absolute_events_are_idempotent_witness :
  let ev := StrokeDeleted "s1" in
  let ss : gmap string Stroke := {[ "s1" := Scenario.line (JStr "s1") ]} in
  apply_event ev (apply_event ev ss) = apply_event ev ss.
Proof.
  intros ev ss. by apply absolute_events_are_idempotent.
Defined.

Lemma translate_ids_lookup ids dx dy : ∀ (ss : gmap string Stroke) id,
  NoDup ids →
  translate_ids ids dx dy ss !! id =
    if decide (id ∈ ids) then translate dx dy <$> ss !! id else ss !! id.
Proof.
  unfold translate_ids.
  induction ids as [|i ids IH]; intros ss id Hnd; cbn [fold_left].
  - destruct (decide (id ∈ [])) as [Hin|]; [by apply elem_of_nil in Hin | done].
  - apply NoDup_cons in Hnd as [Hi Hnd]. rewrite IH by done.
    destruct (decide (id ∈ ids)) as [Hin|Hin].
    + rewrite decide_True by (by apply list_elem_of_further).
      assert (id ≠ i) by (intros ->; done).
      destruct (ss !! i); [|done]. by rewrite lookup_insert_ne.
    + destruct (decide (id = i)) as [->|Hne].
      * rewrite decide_True by apply list_elem_of_here.
        destruct (ss !! i) eqn:Hs; [|by rewrite Hs].
        by rewrite lookup_insert_eq.
      * rewrite decide_False by (by intros [?|?]%elem_of_cons).
        destruct (ss !! i); [|done]. by rewrite lookup_insert_ne.
Qed.

(** X18.  The [strokes-updated] listener, for a list of ids without
    repetition: every point of every listed stroke that the client holds
    is shifted by [(dx, dy)], with id, colour and size kept; listed ids
    it does not hold are skipped; every other stroke is untouched, and no
    stroke appears or disappears. *)
Theorem strokes_updated_translates_listed_strokes ids dx dy ss :
  NoDup ids →
  let ss' := apply_event (StrokesUpdated ids dx dy) ss in
  (∀ id s, id ∈ ids → ss !! id = Some s →
     ss' !! id = Some (translate dx dy s) ∧
     s_points (translate dx dy s) =
       map (λ p, {| p_x := p_x p + dx; p_y := p_y p + dy |}) (s_points s)) ∧
  (∀ id, id ∉ ids → ss' !! id = ss !! id) ∧
  (∀ id, ss' !! id = None ↔ ss !! id = None).
Proof.
  intros Hnd ss'. subst ss'. simpl. split; [|split].
  - intros id s Hin Hs. rewrite translate_ids_lookup by done.
    rewrite decide_True by done. by rewrite Hs.
  - intros id Hin. rewrite translate_ids_lookup by done.
    by rewrite decide_False.
  - intros id. rewrite translate_ids_lookup by done.
    destruct (decide _); [|done]. by rewrite fmap_None.
Qed.

Lemma strokes_updated_translates_listed_strokes_witness :
  let ss : gmap string Stroke :=
    {[ "s1" := Scenario.line (JStr "s1"); "s2" := Scenario.line (JStr "s2") ]} in
  apply_event (StrokesUpdated ["s1"; "s9"] 5 (-3)) ss !! "s1"
    = Some (translate 5 (-3) (Scenario.line (JStr "s1"))) ∧
  apply_event (StrokesUpdated ["s1"; "s9"] 5 (-3)) ss !! "s2"
    = Some (Scenario.line (JStr "s2")).
Proof.
  intros ss.
  destruct (strokes_updated_translates_listed_strokes ["s1"; "s9"] 5 (-3) ss)
    as (Hin & Hout & _).
  - apply (bool_decide_eq_true_1 _). vm_compute. reflexivity.
  - split.
    + apply Hin; [apply list_elem_of_here | reflexivity].
    + rewrite Hout; [reflexivity|].
      intros H. apply (bool_decide_eq_true_2 _) in H. vm_compute in H.
      discriminate.
Defined.

(** *** Replaying the broadcasts *)

Lemma apply_membership_only evs ss :
  membership_only evs → apply_events evs ss = ss.
Proof.
  unfold apply_events. induction 1 as [|ev evs [ms ->] _ IH]; simpl; done.
Qed.

Lemma room_events_one r r0 ev :
  room_events r [IoToRoom r0 ev] = if bool_decide (r0 = r) then [ev] else [].
Proof. unfold room_events. simpl. by destruct (bool_decide _). Qed.

Lemma disconnect_replay now sid k s r b :
  readBoard r s = Some b →
  (∃ b', readBoard r (disconnect now sid k s).1 = Some b' ∧
         strokes b' = strokes b) ∧
  membership_only (room_events r (disconnect now sid k s).2).
Proof.
  intros Hb. unfold disconnect.
  assert (Hid : ∃ b', readBoard r (set_sockets (delete sid (sockets s)) s)
                        = Some b' ∧ strokes b' = strokes b) by (by exists b).
  destruct (currentRoom k) as [room|]; [|split; [done | constructor]].
  destruct (truthy_str room); [|split; [done | constructor]].
  destruct (readBoard room _) as [board|] eqn:Hr; [|split; [done | constructor]].
  destruct (find _ _); [|split; [done | constructor]].
  cbn [fst snd]. split.
  - destruct (decide (room = r)) as [->|Hne].
    + rewrite readBoard_writeBoard. eexists. split; [done|].
      simpl. change (readBoard r s = Some board) in Hr. congruence.
    + rewrite readBoard_writeBoard_ne by done. by exists b.
  - rewrite room_events_one. destruct (bool_decide _); [|constructor].
    constructor; [eauto | constructor].
Qed.

(** X12.  A client that applies every event broadcast to the room of a
    board stays equal to the persisted board.  Whatever message the
    server handles whose room id, if it carries one, is a file name (a
    [create-room] whose fresh id collides with the room apart), the
    strokes of the board stored under [r] after the message are the
    strokes before it with the events sent by [io.to(r).emit] applied in
    order by the client's listeners. *)
Theorem room_broadcasts_replay_the_board e sid m s r b :
  readBoard r s = Some b →
  (∀ r', requested_room m = Some r' → is_file_name r' = true) →
  (m = CreateRoom → generateRoomId (random36 e) ≠ r) →
  ∃ b', readBoard r (handle e sid m s).1 = Some b' ∧
        strokes b' =
          apply_events (room_events r (handle e sid m s).2) (strokes b).
Proof.
  intros Hb _ Hfresh. unfold handle.
  assert (Hid : ∃ b', readBoard r s = Some b' ∧
                      strokes b' = apply_events (room_events r []) (strokes b))
    by (by exists b).
  destruct (sockets s !! sid) as [k|]; [|exact Hid].
  destruct (bool_decide _); [|exact Hid].
  destruct m; cbn [listener]; try exact Hid.
  - unfold create_room. cbn [fst snd].
    rewrite readBoard_writeBoard_ne by (by apply Hfresh). by exists b.
  - unfold join_room.
    destruct (readBoard roomId0 s) as [board|] eqn:Hr; [|by exists b].
    destruct (bool_decide (address k ∈ _)); [by exists b|]. cbn [fst snd].
    change (room_events r (?c :: ?l)) with (room_events r l).
    rewrite room_events_one.
    destruct (decide (roomId0 = r)) as [->|Hne].
    + rewrite readBoard_writeBoard, bool_decide_eq_true_2 by done.
      eexists. split; [done|]. simpl. congruence.
    + rewrite readBoard_writeBoard_ne, bool_decide_eq_false_2 by done.
      by exists b.
  - unfold add_stroke.
    destruct (readBoard roomId0 s) as [board|] eqn:Hr; [|exact Hid].
    cbn [fst snd]. rewrite room_events_one.
    destruct (decide (roomId0 = r)) as [->|Hne].
    + rewrite readBoard_writeBoard, bool_decide_eq_true_2 by done.
      eexists. split; [done|]. simpl. congruence.
    + rewrite readBoard_writeBoard_ne, bool_decide_eq_false_2 by done.
      by exists b.
  - unfold delete_stroke.
    destruct (readBoard roomId0 s) as [board|] eqn:Hr; [|exact Hid].
    destruct (get_truthy _ _); [|exact Hid].
    cbn [fst snd]. rewrite room_events_one.
    destruct (decide (roomId0 = r)) as [->|Hne].
    + rewrite readBoard_writeBoard, bool_decide_eq_true_2 by done.
      eexists. split; [done|]. simpl. congruence.
    + rewrite readBoard_writeBoard_ne, bool_decide_eq_false_2 by done.
      by exists b.
  - unfold clear_board.
    destruct (readBoard roomId0 s) as [board|] eqn:Hr; [|exact Hid].
    destruct (strict_eq _ _); [|exact Hid].
    cbn [fst snd]. rewrite room_events_one.
    destruct (decide (roomId0 = r)) as [->|Hne].
    + rewrite readBoard_writeBoard, bool_decide_eq_true_2 by done.
      eexists. split; done.
    + rewrite readBoard_writeBoard_ne, bool_decide_eq_false_2 by done.
      by exists b.
  - unfold kick_user.
    destruct (readBoard roomId0 s) as [board|] eqn:Hr; [|exact Hid].
    destruct (strict_eq _ _); [|exact Hid].
    destruct (find _ _) as [target|]; [|exact Hid].
    assert (Hlast : ∀ ms, membership_only
                            (room_events r [IoToRoom roomId0 (UpdateMembers ms)])).
    { intros ms. rewrite room_events_one.
      destruct (bool_decide _); repeat constructor. eauto. }
    destruct (sockets s !! m_socketId target) as [tsock|].
    + destruct (disconnect_replay (clock e 0) (m_socketId target) tsock s r b Hb)
        as [(b1 & Hb1 & Hs1) Hev].
      destruct (disconnect _ _ _ _) as [s1 out1]. cbn [fst snd] in Hb1, Hev |- *.
      assert (Hmo : membership_only
                (room_events r
                   ((ToSocket (m_socketId target) (Kicked kicked_message) :: out1) ++
                    [IoToRoom roomId0
                       (UpdateMembers
                          (update_first (is_member userIdToKick)
                             (set_m_status offline)
                             (members (set_bannedIPs
                                (bannedIPs board ++ [address tsock]) board))))]))).
      { unfold room_events. rewrite omap_app. apply Forall_app. split.
        - exact Hev.
        - apply Hlast. }
      rewrite (apply_membership_only _ _ Hmo).
      destruct (decide (roomId0 = r)) as [->|Hne].
      * rewrite readBoard_writeBoard. eexists. split; [done|].
        simpl. congruence.
      * rewrite readBoard_writeBoard_ne by done. by exists b1.
    + cbn [fst snd]. rewrite app_nil_l.
      rewrite (apply_membership_only _ _ (Hlast _)).
      destruct (decide (roomId0 = r)) as [->|Hne].
      * rewrite readBoard_writeBoard. eexists. split; [done|].
        simpl. congruence.
      * rewrite readBoard_writeBoard_ne by done. by exists b.
  - destruct (disconnect_replay (clock e 0) sid k s r b Hb)
      as [(b1 & Hb1 & Hs1) Hev].
    exists b1. split; [done|]. by rewrite (apply_membership_only _ _ Hev).
Qed.

Lemma room_broadcasts_replay_the_board_witness :
  let result := handle (Scenario.env "" "" 90) "sb"
                  (DeleteStroke Scenario.room "s1") Scenario.drawing in
  ∃ b', readBoard Scenario.room result.1 = Some b' ∧
        strokes b' =
          apply_events [StrokeDeleted "s1"] (strokes Samples.drawing_board).
Proof.
  intros result.
  destruct (room_broadcasts_replay_the_board
              (Scenario.env "" "" 90) "sb" (DeleteStroke Scenario.room "s1")
              Scenario.drawing Scenario.room Samples.drawing_board)
    as (b' & Hb' & Hs).
  - vm_compute. reflexivity.
  - intros r' [= <-]. reflexivity.
  - discriminate.
  - exists b'. split; [exact Hb'|]. rewrite Hs. f_equal.
Defined.

End ReplicaFacts.

(** ** Undo, redo and the clear button *)

Module HistoryFacts.
Import Client History ClientFacts.

Lemma nonempty_snoc {A} (l : list A) : l ≠ [] → ∃ rest x, l = rest ++ [x].
Proof.
  destruct l as [|y l] using rev_ind; [done|]. intros _. eauto.
Qed.

Lemma undo_stacks a rest op :
  undoStack a = rest ++ [op] →
  undoStack (undo a).1 = rest ∧
  redoStack (undo a).1 = redoStack a ++ [op] ∧
  roomId (undo a).1 = roomId a.
Proof.
  intros Hu. unfold undo. rewrite Hu, pop_snoc. by destruct op.
Qed.

Lemma redo_stacks a rest op :
  redoStack a = rest ++ [op] →
  redo a = (set_stacks (undoStack a ++ [op]) rest a,
            match op with
            | HAdd _ => []
            | HDelete strokeId _ => [DeleteStroke (roomId a) strokeId]
            | HMove strokeIds dx dy => [UpdateStrokes (roomId a) strokeIds dx dy]
            | HClear _ => [ClearBoard (roomId a)]
            end).
Proof. intros Hr. unfold redo. by rewrite Hr, pop_snoc. Qed.

(** X19.  Undo followed by redo puts both history stacks back as they
    were, and so does redo followed by undo; for a move entry the two
    steps send [update-strokes] for the same ids with opposite deltas. *)
Theorem undo_and_redo_are_inverse_on_the_stacks a :
  (undoStack a ≠ [] →
     undoStack (redo (undo a).1).1 = undoStack a ∧
     redoStack (redo (undo a).1).1 = redoStack a) ∧
  (redoStack a ≠ [] →
     undoStack (undo (redo a).1).1 = undoStack a ∧
     redoStack (undo (redo a).1).1 = redoStack a) ∧
  (∀ rest ids dx dy, undoStack a = rest ++ [HMove ids dx dy] →
     (undo a).2 = [UpdateStrokes (roomId a) ids (- dx) (- dy)] ∧
     (redo (undo a).1).2 = [UpdateStrokes (roomId a) ids dx dy]).
Proof.
  split; [|split].
  - intros (rest & op & Hu)%nonempty_snoc.
    destruct (undo_stacks a rest op Hu) as (Hu1 & Hr1 & _).
    rewrite (redo_stacks _ _ _ Hr1). cbn [fst]. simpl.
    by rewrite Hu1, Hu.
  - intros (rest & op & Hr)%nonempty_snoc.
    rewrite (redo_stacks _ _ _ Hr). cbn [fst].
    destruct (undo_stacks (set_stacks (undoStack a ++ [op]) rest a)
                (undoStack a) op eq_refl) as (Hu1 & Hr1 & _).
    rewrite Hu1, Hr1. simpl. by rewrite Hr.
  - intros rest ids dx dy Hu.
    destruct (undo_stacks a rest _ Hu) as (_ & Hr1 & Hroom).
    rewrite (redo_stacks _ _ _ Hr1). cbn [snd]. rewrite Hroom.
    split; [|reflexivity].
    unfold undo. by rewrite Hu, pop_snoc.
Qed.

Lemma undo_and_redo_are_inverse_on_the_stacks_witness :
  undoStack (redo (undo Samples.after_move).1).1 = [HMove ["s1"; "s2"] 5 (-3)] ∧
  redoStack (redo (undo Samples.after_move).1).1 = [] ∧
  undoStack (undo (redo Scenario.after_undo).1).1 = [] ∧
  (undo Samples.after_move).2
    = [UpdateStrokes Scenario.room ["s1"; "s2"] (- 5) (- -3)].
Proof.
  destruct (undo_and_redo_are_inverse_on_the_stacks Samples.after_move)
    as (Hur & _ & Hmove).
  destruct (undo_and_redo_are_inverse_on_the_stacks Scenario.after_undo)
    as (_ & Hru & _).
  destruct Hur as [Hu Hr]; [discriminate|].
  destruct Hru as [Hu' _]; [discriminate|].
  destruct (Hmove [] ["s1"; "s2"] 5%Q (-3)%Q eq_refl) as [Hm _].
  auto.
Defined.

(** Undo never edits the local strokes itself, except for a clear:
    for an add, delete or move entry (and on an empty stack) the stroke
    map after [undo] is the one before, the change being left to the
    server's echo. *)
Theorem undo_leaves_strokes_unless_clear a :
  (∀ rest before, undoStack a ≠ rest ++ [HClear before]) →
  strokes (undo a).1 = strokes a.
Proof.
  intros Hno. unfold undo.
  destruct (undoStack a) as [|y l] eqn:Hu using rev_ind.
  - reflexivity.
  - rewrite pop_snoc. destruct y; try reflexivity.
    exfalso. by apply (Hno l before).
Qed.

Lemma undo_leaves_strokes_unless_clear_witness :
  strokes (undo Samples.after_move).1 = strokes Samples.after_move.
Proof.
  apply undo_leaves_strokes_unless_clear.
  intros rest before H. apply (f_equal (@rev _)) in H.
  rewrite rev_unit in H. simpl in H. discriminate.
Defined.

(** X20.  Clear and undo round trip.  After a confirmed click on the
    clear button and the [board-cleared] echo, [undo] puts back exactly
    the strokes the client held before the click and sends one
    [add-stroke] per stroke of that set, each with the stroke as it was,
    and nothing else. *)
Theorem clear_then_undo_restores_strokes a :
  let a1 := (clearBoard_click true a).1 in
  let a2 := board_cleared a1 in
  (clearBoard_click true a).2 = [ClearBoard (roomId a)] ∧
  strokes a2 = ∅ ∧
  strokes (undo a2).1 = strokes a ∧
  undoStack (undo a2).1 = undoStack a ∧
  length (undo a2).2 = size (strokes a) ∧
  ∀ m, m ∈ (undo a2).2 ↔
       ∃ id s, strokes a !! id = Some s ∧ m = AddStroke (roomId a) s.
Proof.
  intros a1 a2. subst a1 a2. unfold clearBoard_click, board_cleared.
  cbn [fst snd]. split; [reflexivity|]. split; [reflexivity|].
  unfold undo. cbn [undoStack set_strokes pushHistory set_stacks].
  rewrite pop_snoc. cbn [fst snd]. split; [reflexivity|].
  split; [reflexivity|]. split.
  - by rewrite length_fmap, length_map_to_list.
  - intros m. rewrite list_elem_of_fmap. split.
    + intros ([id s] & -> & Hin). apply elem_of_map_to_list in Hin.
      by exists id, s.
    + intros (id & s & Hs & ->). exists (id, s).
      split; [reflexivity|]. by apply elem_of_map_to_list.
Qed.

End HistoryFacts.


(** ** Selection *)

Module SelectionFacts.
Import Client Selection ClientFacts.

Lemma Qltb_true a b : Qltb a b = true → (a < b)%Q.
Proof.
  unfold Qltb. intros H. apply negb_true_iff in H.
  apply Qnot_le_lt. intros Hle. apply Qle_bool_iff in Hle. congruence.
Qed.

Lemma Qltb_false a b : Qltb a b = false → (b <= a)%Q.
Proof.
  unfold Qltb. intros H. apply negb_false_iff in H. by apply Qle_bool_iff.
Qed.

(** The running minima and maxima bound the start values and every point
    seen. *)
Lemma bbox_fold ps : ∀ minX minY maxX maxY a b c d,
  fold_left bbox_step ps (minX, minY, maxX, maxY) = (a, b, c, d) →
  (a <= minX ∧ b <= minY ∧ maxX <= c ∧ maxY <= d)%Q ∧
  ∀ p, p ∈ ps → (a <= p_x p ∧ p_x p <= c ∧ b <= p_y p ∧ p_y p <= d)%Q.
Proof.
  induction ps as [|q ps IH]; intros minX minY maxX maxY a b c d Hf.
  - simpl in Hf. injection Hf as <- <- <- <-.
    split; [repeat split; apply Qle_refl|]. by intros p ?%elem_of_nil.
  - simpl in Hf. apply IH in Hf as [(Ha & Hb & Hc & Hd) Hps].
    assert (Hstep :
      ((if Qltb (p_x q) minX then p_x q else minX) <= minX ∧
       (if Qltb (p_x q) minX then p_x q else minX) <= p_x q ∧
       (if Qltb (p_y q) minY then p_y q else minY) <= minY ∧
       (if Qltb (p_y q) minY then p_y q else minY) <= p_y q ∧
       maxX <= (if Qltb maxX (p_x q) then p_x q else maxX) ∧
       p_x q <= (if Qltb maxX (p_x q) then p_x q else maxX) ∧
       maxY <= (if Qltb maxY (p_y q) then p_y q else maxY) ∧
       p_y q <= (if Qltb maxY (p_y q) then p_y q else maxY))%Q).
    { repeat split;
        match goal with
        | |- context [Qltb ?u ?v] =>
            let H := fresh in
            destruct (Qltb u v) eqn:H;
              [apply Qltb_true in H | apply Qltb_false in H]
        end; Lqa.lra. }
    destruct Hstep as (H1 & H2 & H3 & H4 & H5 & H6 & H7 & H8).
    split.
    + repeat split; Lqa.lra.
    + intros p [->|Hin]%elem_of_cons.
      * repeat split; Lqa.lra.
      * by apply Hps.
Qed.

(** X22.  In exact arithmetic (coordinates as rationals), the bounding
    box of a stroke contains every point of the stroke, and its width and
    height are not negative. *)
Theorem bounding_box_contains_every_point s p :
  p ∈ s_points s →
  pointInRect p (strokeBoundingBox s) = true ∧
  (0 <= r_w (strokeBoundingBox s))%Q ∧ (0 <= r_h (strokeBoundingBox s))%Q.
Proof.
  intros Hin. unfold strokeBoundingBox.
  destruct (s_points s) as [|q ps] eqn:Hps; [by apply elem_of_nil in Hin|].
  destruct (fold_left bbox_step ps (p_x q, p_y q, p_x q, p_y q))
    as [[[a b] c] d] eqn:Hf.
  apply bbox_fold in Hf as [(Ha & Hb & Hc & Hd) Hall].
  assert (Hp : (a <= p_x p ∧ p_x p <= c ∧ b <= p_y p ∧ p_y p <= d)%Q).
  { apply elem_of_cons in Hin as [->|Hin]; [|by apply Hall].
    repeat split; assumption. }
  destruct Hp as (H1 & H2 & H3 & H4).
  unfold pointInRect. simpl.
  split; [|split; Lqa.lra].
  rewrite !andb_true_iff, !Qle_bool_iff. repeat split; Lqa.lra.
Qed.

Lemma bounding_box_contains_every_point_witness :
  pointInRect {| p_x := 10; p_y := 10 |}
    (strokeBoundingBox (Scenario.line (JStr "s1"))) = true.
Proof.
  apply (bounding_box_contains_every_point (Scenario.line (JStr "s1"))).
  simpl. apply list_elem_of_further, list_elem_of_here.
Defined.

(** X23.  In exact arithmetic (coordinates as rationals), the marquee
    spanned by two corner points, in whatever order they are given, has a
    non-negative width and height and contains both corners. *)
Theorem marquee_contains_its_corners a b :
  pointInRect a (rectFromPoints a b) = true ∧
  pointInRect b (rectFromPoints a b) = true ∧
  (0 <= r_w (rectFromPoints a b))%Q ∧ (0 <= r_h (rectFromPoints a b))%Q.
Proof.
  unfold pointInRect, rectFromPoints. cbn [r_x r_y r_w r_h].
  rewrite !andb_true_iff, !Qle_bool_iff.
  pose proof (Qabs_nonneg (p_x a - p_x b)) as Hw.
  pose proof (Qabs_nonneg (p_y a - p_y b)) as Hh.
  pose proof (Qle_Qabs (p_x a - p_x b)) as Hw1.
  pose proof (Qle_Qabs (p_y a - p_y b)) as Hh1.
  pose proof (Qle_Qabs (- (p_x a - p_x b))) as Hw2.
  pose proof (Qle_Qabs (- (p_y a - p_y b))) as Hh2.
  rewrite Qabs_opp in Hw2, Hh2.
  destruct (Q.min_spec (p_x a) (p_x b)) as [[Hx Hmx]|[Hx Hmx]];
    destruct (Q.min_spec (p_y a) (p_y b)) as [[Hy Hmy]|[Hy Hmy]];
    unfold QHasMinMax.min in Hmx, Hmy;
    repeat split; Lqa.lra.
Qed.



(** X25.  Releasing the pointer at the end of a selection drag sends one
    [update-strokes] for the whole drag, or nothing: with a zero
    accumulated delta no message is sent and no history entry is made;
    otherwise exactly one message carries the selected ids and the
    accumulated delta, one move entry with the same data is pushed and
    the redo stack is emptied.  The strokes themselves are not touched by
    the release. *)
Theorem drag_release_sends_one_update a :
  isDrawing a = false →
  currentTool a = "select" →
  isSelecting a = false →
  isDraggingSelection a = true →
  let dx := p_x (accumulatedDrag a) in
  let dy := p_y (accumulatedDrag a) in
  let ids := elements (selectedStrokeIds a) in
  ∃ a' out,
    onPointerUp a = Some (a', out) ∧
    isDraggingSelection a' = false ∧
    strokes a' = strokes a ∧
    ((dx == 0 ∧ dy == 0)%Q →
       out = [] ∧ undoStack a' = undoStack a ∧ redoStack a' = redoStack a) ∧
    (¬ (dx == 0 ∧ dy == 0)%Q →
       out = [UpdateStrokes (roomId a) ids dx dy] ∧
       undoStack a' = undoStack a ++ [HMove ids dx dy] ∧
       redoStack a' = []).
Proof.
  intros Hd Ht Hs Hg. destruct a. simpl in Hd, Ht, Hs, Hg. subst.
  unfold onPointerUp, finish_drawing, finish_select, release_pointer.
  cbn [isDrawing currentTool isSelecting selectionRect isDraggingSelection
       set_isDraggingSelection accumulatedDrag].
  rewrite bool_decide_eq_true_2 by done.
  destruct (Qeq_bool (p_x accumulatedDrag0) 0) eqn:Hx;
    destruct (Qeq_bool (p_y accumulatedDrag0) 0) eqn:Hy;
    cbn [negb orb]; eexists _, _; (split; [reflexivity|]); cbn;
    (split; [reflexivity|]); (split; [reflexivity|]).
  - split; [done|]. intros Hn. exfalso. apply Hn.
    split; by apply Qeq_bool_iff.
  - split; [|done]. intros [_ Hz]. apply Qeq_bool_iff in Hz. congruence.
  - split; [|done]. intros [Hz _]. apply Qeq_bool_iff in Hz. congruence.
  - split; [|done]. intros [Hz _]. apply Qeq_bool_iff in Hz. congruence.
Qed.

Lemma drag_release_sends_one_update_witness :
  ∃ a', onPointerUp Samples.dragging
          = Some (a', [UpdateStrokes Scenario.room ["s1"] 5 (-3)]) ∧
        undoStack a' = [HMove ["s1"] 5 (-3)] ∧ redoStack a' = [].
Proof.
  destruct (drag_release_sends_one_update Samples.dragging
              eq_refl eq_refl eq_refl eq_refl)
    as (a' & out & Hup & _ & _ & _ & Hmove).
  destruct Hmove as (-> & Hu & Hr).
  { intros [Hz _]. vm_compute in Hz. discriminate. }
  exists a'. split; [exact Hup|]. split; [exact Hu | exact Hr].
Defined.

Lemma finish_select_history a op :
  redoStack a = [] →
  op ∈ undoStack a →
  redoStack (finish_select a).1 = [] ∧ op ∈ undoStack (finish_select a).1.
Proof.
  intros Hr Hu. unfold finish_select. case_bool_decide; [|done].
  destruct (isSelecting a), (selectionRect a), (isDraggingSelection a);
    try done;
    destruct (_ || _); try done;
    (split; [reflexivity | cbn; apply elem_of_app; by left]).
Qed.

(** X21.  A newly recorded edit discards the redo history: right after a
    stroke of two or more points is completed, the redo stack is empty,
    the stroke's add entry is on the undo stack, and [redo] neither
    changes the client state nor sends anything. *)
Theorem recorded_stroke_clears_redo a cs :
  isDrawing a = true →
  currentStroke a = Some cs →
  (2 ≤ length (s_points cs))%nat →
  ∃ a' out,
    onPointerUp a = Some (a', out) ∧
    redoStack a' = [] ∧
    HAdd (s_id cs) ∈ undoStack a' ∧
    redo a' = (a', []).
Proof.
  intros Hd Hc Hlen. unfold onPointerUp, finish_drawing.
  cbn [release_pointer isDrawing currentStroke set_isDrawing]. rewrite Hd, Hc.
  assert ((1 <? length (s_points cs))%nat = true) as ->
    by (apply Nat.ltb_lt; lia).
  match goal with
  | |- context [finish_select ?x] =>
      destruct (finish_select_history x (HAdd (s_id cs))) as [Hr Hu];
        [reflexivity | cbn; apply elem_of_app; right; apply list_elem_of_here |];
        destruct (finish_select x) as [a2 out2]
  end.
  cbn [fst] in Hr, Hu.
  eexists _, _. split; [reflexivity|]. split; [exact Hr|]. split; [exact Hu|].
  unfold redo. by rewrite Hr.
Qed.

Lemma recorded_stroke_clears_redo_witness :
  ∃ a' out,
    onPointerUp (Scenario.pen_down (Scenario.line (JStr "temp-1")))
      = Some (a', out) ∧
    redo a' = (a', []).
Proof.
  destruct (recorded_stroke_clears_redo
              (Scenario.pen_down (Scenario.line (JStr "temp-1")))
              (Scenario.line (JStr "temp-1")) eq_refl eq_refl)
    as (a' & out & Hup & _ & _ & Hredo).
  - simpl. lia.
  - exists a', out. split; [exact Hup | exact Hredo].
Defined.

End SelectionFacts.

(** ** Gestures on the camera *)

Module GestureFacts.
Import Viewport Gestures ViewportFacts.
Local Open Scope R_scope.

(** X26.  [screenToWorld] and [worldToScreen] are inverse to each other
    for every camera whose zoom is not zero. *)
Theorem screen_and_world_coordinates_round_trip c p :
  zoom c ≠ 0 →
  worldToScreen c (screenToWorld c p) = p ∧
  screenToWorld c (worldToScreen c p) = p.
Proof.
  intros Hz. destruct p as [px py]. unfold worldToScreen, screenToWorld.
  simpl. split; f_equal; field; exact Hz.
Qed.

Lemma screen_and_world_coordinates_round_trip_witness :
  worldToScreen (camera Scenario.zoomed_in)
    (screenToWorld (camera Scenario.zoomed_in) {| x := 7; y := 9 |})
  = {| x := 7; y := 9 |}.
Proof.
  apply screen_and_world_coordinates_round_trip. simpl. lra.
Defined.

(** X27.  Over the reals, a two-finger move leaves the world point
    recorded at the start of the pinch under the midpoint of the two
    fingers, also when the zoom is clamped; the pinch is active
    afterwards, an active pinch state is kept as it is, and when
    [minZoom <= maxZoom] the zoom lies within the limits. *)
Theorem pinch_keeps_start_point_under_fingers v ps p1 p2 :
  let r := pinch_move v ps p1 p2 in
  worldToScreen (camera r.1) (initialCenterWorld r.2)
    = center (getTouchInfo p1 p2) ∧
  active r.2 = true ∧
  (active ps = true → r.2 = ps) ∧
  (minZoom v <= maxZoom v →
     minZoom r.1 <= zoom (camera r.1) <= maxZoom r.1).
Proof.
  intros r. subst r. unfold pinch_move. cbn [fst snd camera zoom cam_x cam_y
    minZoom maxZoom].
  split; [|split; [|split]].
  - unfold worldToScreen. cbn [x y zoom cam_x cam_y getTouchInfo center].
    f_equal; ring.
  - by destruct (active ps) eqn:Ha.
  - by intros ->.
  - intros Hlim. by apply clamp_bounds.
Qed.

Lemma pinch_keeps_start_point_under_fingers_witness :
  let r := pinch_move initial
             {| active := false; initialDistance := 0; initialZoom := 1;
                initialCenterWorld := {| x := 0; y := 0 |} |}
             {| x := 0; y := 0 |} {| x := 3; y := 4 |} in
  1 / 10 <= zoom (camera r.1) <= 6.
Proof.
  intros r.
  refine (proj2 (proj2 (proj2 (pinch_keeps_start_point_under_fingers
                                 initial _ _ _))) _).
  simpl. lra.
Defined.

(** X28.  Over the reals, a first two-finger move with the fingers where
    they landed (and not on the same spot) changes nothing: when the zoom
    is non-zero and within the limits, the camera after the move is the
    camera before. *)
Theorem pinch_without_motion_keeps_camera v ps p1 p2 :
  active ps = false →
  distance (getTouchInfo p1 p2) ≠ 0 →
  zoom (camera v) ≠ 0 →
  minZoom v <= zoom (camera v) <= maxZoom v →
  (pinch_move v ps p1 p2).1 = v.
Proof.
  intros Ha Hd Hz Hin. unfold pinch_move. rewrite Ha.
  cbn [fst initialDistance initialZoom initialCenterWorld].
  set (t := getTouchInfo p1 p2) in *.
  assert (Hone : distance t / or_one (distance t) = 1).
  { unfold or_one. destruct (Req_dec_T (distance t) 0); [done|]. by field. }
  rewrite Hone, Rmult_1_r, (clamp_inside _ _ _ Hin).
  destruct v as [[cx cy z] lo hi]. simpl in *.
  f_equal. f_equal; field; exact Hz.
Qed.

Lemma pinch_without_motion_keeps_camera_witness :
  (pinch_move initial
     {| active := false; initialDistance := 0; initialZoom := 1;
        initialCenterWorld := {| x := 0; y := 0 |} |}
     {| x := 0; y := 0 |} {| x := 3; y := 4 |}).1 = initial.
Proof.
  apply pinch_without_motion_keeps_camera.
  - reflexivity.
  - simpl. apply Rgt_not_eq, sqrt_lt_R0. lra.
  - simpl. lra.
  - simpl. lra.
Defined.

Lemma unclamped_step c pos deltaY :
  zoom c ≠ 0 →
  zoom (onWheel_unclamped c pos deltaY) ≠ 0 ∧
  screenToWorld (onWheel_unclamped c pos deltaY) pos = screenToWorld c pos.
Proof.
  intros Hz. unfold onWheel_unclamped, screenToWorld. simpl.
  pose proof (exp_pos (wheel deltaY * zoomIntensity)) as He.
  split.
  - apply Rmult_integral_contrapositive. split; lra.
  - f_equal; field; split; lra.
Qed.

(** X29.  In the earlier client ([public/board.js]), where the wheel zoom
    has no limits, any series of wheel steps at one pointer position
    keeps the world point under the pointer there, and the zoom never
    becomes zero. *)
Theorem unclamped_wheel_keeps_point_under_pointer c pos deltas :
  zoom c ≠ 0 →
  zoom (wheel_series c pos deltas) ≠ 0 ∧
  screenToWorld (wheel_series c pos deltas) pos = screenToWorld c pos ∧
  worldToScreen (wheel_series c pos deltas) (screenToWorld c pos) = pos.
Proof.
  unfold wheel_series. revert c.
  induction deltas as [|d deltas IH]; intros c Hz; simpl.
  - split; [exact Hz|]. split; [reflexivity|].
    by apply screen_and_world_coordinates_round_trip.
  - destruct (unclamped_step c pos d Hz) as [Hz' Hsame].
    destruct (IH _ Hz') as (Hz'' & Hw & Hs).
    split; [exact Hz''|]. split; [by rewrite Hw|].
    by rewrite <- Hsame.
Qed.

Lemma unclamped_wheel_keeps_point_under_pointer_witness :
  worldToScreen
    (wheel_series {| cam_x := 100; cam_y := 50; zoom := 6 |}
       {| x := 0; y := 0 |} [-1; -1; 3])
    (screenToWorld {| cam_x := 100; cam_y := 50; zoom := 6 |}
       {| x := 0; y := 0 |})
  = {| x := 0; y := 0 |}.
Proof.
  apply unclamped_wheel_keeps_point_under_pointer. simpl. lra.
Defined.

End GestureFacts.
